(** * RecruitPro: the request-admission core

    A shallow embedding of the admission pipeline of the platform
    (src/lib/rate-limit.ts, src/lib/errors.ts, src/lib/auth.ts,
    src/lib/validation.ts, src/lib/models/User.ts and the API routes)
    together with the properties its specification states about it.

    Conventions.  JavaScript numbers that the code uses as counters,
    limits and timestamps are integers in [Z]; strings are sequences of
    code units below 256 ([string]); a [Map] or a plain object used as a
    dictionary is a [gmap].  The first part of the file holds the model,
    the second part the properties. *)

From Stdlib Require Import ZArith Ascii String.
From stdpp Require Import gmap strings list fin_maps pretty.

Local Open Scope Z_scope.
Set Warnings "-register-all".

(** ** Exceptions *)

Module Exn.

(** What a computation completes with: a value, or a thrown [e]. *)
Inductive Result (E A : Type) :=
| Return (a : A)
| Throw (e : E).
Arguments Return {E A} a.
Arguments Throw {E A} e.

(** Sequencing: a throw skips what follows. *)
#[global] Instance Result_bind {E} : MBind (Result E) := λ A B k c,
  match c with
  | Return a => k a
  | Throw e => Throw e
  end.

(** [try { body } catch (e) { handler e }]. *)
Definition try_catch {E E' A} (body : Result E A) (handler : E → Result E' A)
  : Result E' A :=
  match body with
  | Return a => Return a
  | Throw e => handler e
  end.

End Exn.

(** ** The rate limiter (src/lib/rate-limit.ts) *)

Module RateLimit.

(** The value stored per key in [RateLimiter.requests]. *)
Record Entry := mkEntry { count : Z; resetTime : Z }.

(** [RateLimitResult]; [reset] is the millisecond timestamp the [Date]
    is built from. *)
Record RateLimitResult := mkResult {
  success : bool;
  limit : Z;
  remaining : Z;
  reset : Z
}.

#[global] Instance Entry_eq_dec : EqDecision Entry.
Proof. solve_decision. Defined.

#[global] Instance RateLimitResult_eq_dec : EqDecision RateLimitResult.
Proof. solve_decision. Defined.

(** [cleanup]: every entry whose [resetTime] lies before [windowStart]
    is deleted. *)
Definition cleanup (windowStart : Z) (requests : gmap string Entry)
  : gmap string Entry :=
  filter (λ kv, ¬ (resetTime kv.2 < windowStart)) requests.

(** [check], with the clock reading [now] (the value of [Date.now()])
    made explicit and the table threaded through. *)
Definition check (now : Z) (identifier : string) (limit windowMs : Z)
    (requests : gmap string Entry) : RateLimitResult * gmap string Entry :=
  let windowStart := now - windowMs in
  let requests := cleanup windowStart requests in
  let key := identifier in
  let current :=
    default (mkEntry 0 (now + windowMs)) (requests !! key) in
  let current :=
    if bool_decide (now > resetTime current)
    then mkEntry 0 (now + windowMs)
    else current in
  let current := mkEntry (count current + 1) (resetTime current) in
  let requests := <[key := current]> requests in
  (mkResult (bool_decide (count current ≤ limit))
            limit
            (Z.max 0 (limit - count current))
            (resetTime current),
   requests).

(** A policy of [RATE_LIMITS]. *)
Record Policy := mkPolicy { policy_limit : Z; policy_windowMs : Z }.

Definition AUTH : Policy := mkPolicy 5 (15 * 60 * 1000).
Definition API : Policy := mkPolicy 100 (15 * 60 * 1000).
Definition STRICT : Policy := mkPolicy 3 (5 * 60 * 1000).

(** Successive calls of [check] on one key at the clock readings
    [times], oldest first; the results are collected in call order. *)
Fixpoint attempts (identifier : string) (limit windowMs : Z)
    (times : list Z) (requests : gmap string Entry)
  : list RateLimitResult * gmap string Entry :=
  match times with
  | [] => ([], requests)
  | now :: times =>
      let '(r, requests) := check now identifier limit windowMs requests in
      let '(rs, requests) := attempts identifier limit windowMs times requests in
      (r :: rs, requests)
  end.

(** What a run of attempts answers while the window of an entry with
    count [c] and reset time [R] stays open. *)
Fixpoint window_results (lim R c : Z) (times : list Z) : list RateLimitResult :=
  match times with
  | [] => []
  | _ :: times =>
      mkResult (bool_decide (c + 1 ≤ lim)) lim (Z.max 0 (lim - (c + 1))) R
      :: window_results lim R (c + 1) times
  end.

End RateLimit.

(** ** JavaScript values, as far as the code inspects them *)

Module Js.
Export Exn.

(** A JSON value, a value a [catch] clause can bind, or a property of
    one.  An object is the list of its enumerable properties in
    enumeration order, each key occurring once; numbers are integers. *)
Inductive JsValue :=
| JUndefined
| JNull
| JBool (b : bool)
| JNum (n : Z)
| JStr (s : string)
| JArr (items : list JsValue)
| JObj (props : list (string * JsValue)).

(** The [TypeError] raised by reading a property of [null] or
    [undefined], and by [Object.keys] on them. *)
Variant TypeError := TypeErr.

Definition Completion := Result TypeError.
Abbreviation ThrowTypeError := (Throw TypeErr).

Definition is_undefined (v : JsValue) : bool :=
  match v with JUndefined => true | _ => false end.

Definition nullish (v : JsValue) : bool :=
  match v with JUndefined | JNull => true | _ => false end.

Fixpoint lookup_prop (k : string) (props : list (string * JsValue)) : JsValue :=
  match props with
  | [] => JUndefined
  | (k', v) :: props => if bool_decide (k' = k) then v else lookup_prop k props
  end.

(** The index keys ["0"], ["1"], ... of a string or an array of
    length [n], and the index a key denotes. *)
Definition index_keys (n : nat) : list string := pretty <$> seq 0 n.

Definition index_of_key (n : nat) (k : string) : option nat :=
  snd <$> list_find (λ i : nat, pretty i = k) (seq 0 n).

(** [v[k]] (and [v.k]). *)
Definition get (v : JsValue) (k : string) : Completion JsValue :=
  match v with
  | JUndefined | JNull => ThrowTypeError
  | JBool _ | JNum _ => Return JUndefined
  | JStr s =>
      if bool_decide (k = "length") then Return (JNum (Z.of_nat (String.length s)))
      else Return (default JUndefined
                     (i ← index_of_key (String.length s) k;
                      c ← String.get i s;
                      Some (JStr (String c EmptyString))))
  | JArr items =>
      if bool_decide (k = "length") then Return (JNum (Z.of_nat (length items)))
      else Return (default JUndefined
                     (i ← index_of_key (length items) k; items !! i))
  | JObj props => Return (lookup_prop k props)
  end.

(** [Object.keys(v)]. *)
Definition keys (v : JsValue) : Completion (list string) :=
  match v with
  | JUndefined | JNull => ThrowTypeError
  | JBool _ | JNum _ => Return []
  | JStr s => Return (index_keys (String.length s))
  | JArr items => Return (index_keys (length items))
  | JObj props => Return (props.*1)
  end.

(** [v === 'lit'] and [v === n] for a string and a number literal. *)
Definition strict_eq_str (v : JsValue) (lit : string) : bool :=
  match v with JStr s => bool_decide (s = lit) | _ => false end.

Definition strict_eq_num (v : JsValue) (lit : Z) : bool :=
  match v with JNum n => bool_decide (n = lit) | _ => false end.

(** [keys[0]] interpolated in a template literal: the first key, or the
    text of [undefined] when there is none. *)
Definition template_of_first (ks : list string) : string :=
  match ks with
  | [] => "undefined"
  | k :: _ => k
  end.

(** [forEach] over keys with a body that may throw. *)
Fixpoint for_each {A} (ks : list string) (body : string → A → Completion A)
    (acc : A) : Completion A :=
  match ks with
  | [] => Return acc
  | k :: ks => acc ← body k acc; for_each ks body acc
  end.

End Js.

(** ** The error taxonomy and the formatter (src/lib/errors.ts) *)

Module Errors.
Import Js.

(** The fields every [ApiError] instance carries. *)
Record ApiError := mkApiError {
  name : string;
  message : string;
  statusCode : Z;
  code : option string
}.

(** What reaches [formatErrorResponse]: an instance of [ValidationError],
    an instance of [ApiError] that is not one (the class itself or
    another subclass), or any other value. *)
Inductive Thrown :=
| InstValidationError (base : ApiError) (errors : gmap string (list string))
| InstApiError (base : ApiError)
| Other (v : JsValue).

(** The constructors of the classes; an omitted message is [None]. *)
Definition new_ApiError (message : string) (statusCode : Z) (code : option string) : Thrown :=
  InstApiError (mkApiError "ApiError" message statusCode code).

Definition new_ValidationError (errors : gmap string (list string)) : Thrown :=
  InstValidationError
    (mkApiError "ValidationError" "Validation failed" 400 (Some "VALIDATION_ERROR"))
    errors.

Definition new_AuthenticationError (message : option string) : Thrown :=
  InstApiError (mkApiError "AuthenticationError"
                  (default "Authentication failed" message) 401
                  (Some "AUTHENTICATION_ERROR")).

Definition new_AuthorizationError (message : option string) : Thrown :=
  InstApiError (mkApiError "AuthorizationError"
                  (default "Access denied" message) 403
                  (Some "AUTHORIZATION_ERROR")).

Definition new_NotFoundError (message : option string) : Thrown :=
  InstApiError (mkApiError "NotFoundError"
                  (default "Resource not found" message) 404
                  (Some "NOT_FOUND")).

Definition new_ConflictError (message : option string) : Thrown :=
  InstApiError (mkApiError "ConflictError"
                  (default "Resource already exists" message) 409
                  (Some "CONFLICT")).

(** The object [formatErrorResponse] returns; an absent [details] or an
    undefined [code] is [None]. *)
Record ErrorResponse := mkErrorResponse {
  resp_error : string;
  resp_code : option string;
  resp_details : option (gmap string (list JsValue));
  resp_statusCode : Z
}.

(** A line written to the console. *)
Record LogLine := mkLogLine { log_label : string; log_value : Thrown }.

(** The generic envelope of the last branch. *)
Definition internal_response : ErrorResponse :=
  mkErrorResponse "Internal server error" (Some "INTERNAL_ERROR") None 500.

(** [formatErrorResponse]; the second component is what the call wrote
    with [console.error]. *)
Definition formatErrorResponse (error : Thrown)
  : Completion ErrorResponse * list LogLine :=
  match error with
  | InstValidationError base errors =>
      (Return (mkErrorResponse "Validation failed" (code base)
                 (Some ((λ msgs : list string, JStr <$> msgs) <$> errors))
                 (statusCode base)), [])
  | InstApiError base =>
      (Return (mkErrorResponse (message base) (code base) None (statusCode base)), [])
  | Other v =>
      match get v "name" with
      | Throw e => (Throw e, [])
      | Return nm =>
          if strict_eq_str nm "ValidationError" then
            (errs ← get v "errors";
             ks ← keys errs;
             errors ← for_each ks
                 (λ key errors,
                    item ← get errs key;
                    msg ← get item "message";
                    Return (<[key := [msg]]> errors))
                 (∅ : gmap string (list JsValue));
             Return (mkErrorResponse "Validation failed" (Some "VALIDATION_ERROR")
                       (Some errors) 400), [])
          else
            match get v "code" with
            | Throw e => (Throw e, [])
            | Return c =>
                if strict_eq_num c 11000 then
                  (kp ← get v "keyPattern";
                   ks ← keys kp;
                   let field := template_of_first ks in
                   Return (mkErrorResponse (field +:+ " already exists")
                             (Some "DUPLICATE_ERROR") None 409), [])
                else
                  (Return internal_response,
                   [mkLogLine "Unhandled error:" error])
            end
      end
  end.

(** Modelled from the spec: the taxonomy of sections 4.4, 6 and 7, which
    the source has only as wire strings and status numbers.  An envelope
    carries its kind in the wire [code] (section 6); each kind is
    associated with one HTTP status (section 4.4).  The wire code of a
    kind is the one the classes of the source and the API documentation
    give it. *)
Inductive Kind :=
| VALIDATION | AUTHENTICATION | AUTHORIZATION | NOT_FOUND
| CONFLICT | RATE_LIMITED | INTERNAL.

#[global] Instance Kind_eq_dec : EqDecision Kind.
Proof. solve_decision. Defined.

Definition httpStatus (k : Kind) : Z :=
  match k with
  | VALIDATION => 400
  | AUTHENTICATION => 401
  | AUTHORIZATION => 403
  | NOT_FOUND => 404
  | CONFLICT => 409
  | RATE_LIMITED => 429
  | INTERNAL => 500
  end.

Definition wire_code (k : Kind) : string :=
  match k with
  | VALIDATION => "VALIDATION_ERROR"
  | AUTHENTICATION => "AUTHENTICATION_ERROR"
  | AUTHORIZATION => "AUTHORIZATION_ERROR"
  | NOT_FOUND => "NOT_FOUND"
  | CONFLICT => "CONFLICT"
  | RATE_LIMITED => "RATE_LIMIT_EXCEEDED"
  | INTERNAL => "INTERNAL_ERROR"
  end.

Definition all_kinds : list Kind :=
  [VALIDATION; AUTHENTICATION; AUTHORIZATION; NOT_FOUND; CONFLICT; RATE_LIMITED; INTERNAL].

(** The kind a status is associated with. *)
Definition kind_of_status (status : Z) : option Kind :=
  snd <$> list_find (λ k, httpStatus k = status) all_kinds.

(** The kind a wire code denotes, if it denotes one. *)
Definition kind_of_code (code : string) : option Kind :=
  snd <$> list_find (λ k, wire_code k = code) all_kinds.

(** The kind of an envelope: the one its [code] denotes. *)
Definition kind_of (r : ErrorResponse) : option Kind :=
  match resp_code r with
  | Some code => kind_of_code code
  | None => None
  end.

(** The two kinds of storage failure the formatter recognises among
    foreign values, read off its tests: a storage validation error is
    named [ValidationError]; a duplicate-key error (the driver's E11000)
    is not, and carries [code] 11000. *)
Definition storage_validation_error (v : JsValue) : Prop :=
  ∃ nm, get v "name" = Return nm ∧ strict_eq_str nm "ValidationError" = true.

Definition duplicate_key_error (v : JsValue) : Prop :=
  (∃ nm, get v "name" = Return nm ∧ strict_eq_str nm "ValidationError" = false) ∧
  get v "code" = Return (JNum 11000).

(** A foreign value none of the tests recognises. *)
Definition unrecognised (v : JsValue) : Prop :=
  ¬ storage_validation_error v ∧ get v "code" ≠ Return (JNum 11000).

End Errors.

(** ** Regular expressions of the schemas *)

Module Regex.

(** The constructs the patterns of the code use.  [Chr] is a character
    class; [Look] and [NegLook] are the lookaheads [(?=r)] and [(?!r)];
    [Bol] and [Eol] are [^] and [$] without the multiline flag. *)
Inductive Re :=
| Chr (p : ascii → bool)
| Eps
| Cat (r1 r2 : Re)
| Alt (r1 r2 : Re)
| Star (r : Re)
| Look (r : Re)
| NegLook (r : Re)
| Bol
| Eol.

Definition Plus (r : Re) : Re := Cat r (Star r).
Definition AtLeast2 (r : Re) : Re := Cat r (Cat r (Star r)).
Definition Opt (r : Re) : Re := Alt r Eps.

Fixpoint seq_of (rs : list Re) : Re :=
  match rs with
  | [] => Eps
  | [r] => r
  | r :: rs => Cat r (seq_of rs)
  end.

(** Character classes. *)
Definition code (c : ascii) : N := N_of_ascii c.

Definition between (lo hi c : ascii) : bool :=
  ((code lo <=? code c) && (code c <=? code hi))%N.

Definition lit (x c : ascii) : bool := (code x =? code c)%N.

Definition lower : ascii → bool := between "a" "z".
Definition upper : ascii → bool := between "A" "Z".
Definition digit : ascii → bool := between "0" "9".

Definition line_terminator (c : ascii) : bool :=
  ((code c =? 10) || (code c =? 13))%N.

(** [.] *)
Definition dot (c : ascii) : bool := negb (line_terminator c).

(** [\s], for code units below 256. *)
Definition space (c : ascii) : bool :=
  ((9 <=? code c) && (code c <=? 13) || (code c =? 32) || (code c =? 160))%N.

Definition any_of (ps : list (ascii → bool)) (c : ascii) : bool :=
  existsb (λ p, p c) ps.

(** The flag [i] on a class whose members are upper-case letters,
    digits and punctuation: the character is compared after mapping
    [a-z] to [A-Z]. *)
Definition to_upper_az (c : ascii) : ascii :=
  if lower c then ascii_of_N (code c - 32) else c.

Definition ci (p : ascii → bool) (c : ascii) : bool := p (to_upper_az c).

(** Backtracking matcher: [matches r at_start s k] tries [r] at the
    front of [s] ([at_start] tells whether that is the start of the
    subject) and hands what is left to [k].  An iteration of a star has
    to consume input. *)
Fixpoint matches (r : Re) (at_start : bool) (s : list ascii)
    (k : bool → list ascii → bool) : bool :=
  match r with
  | Chr p =>
      match s with
      | c :: s' => p c && k false s'
      | [] => false
      end
  | Eps => k at_start s
  | Cat r1 r2 => matches r1 at_start s (λ b s', matches r2 b s' k)
  | Alt r1 r2 => matches r1 at_start s k || matches r2 at_start s k
  | Star r1 =>
      (fix loop (fuel : nat) (b : bool) (s : list ascii) : bool :=
         k b s ||
         match fuel with
         | O => false
         | S fuel =>
             matches r1 b s
               (λ b' s', if (length s' <? length s)%nat then loop fuel b' s' else false)
         end) (length s) at_start s
  | Look r1 => matches r1 at_start s (λ _ _, true) && k at_start s
  | NegLook r1 => negb (matches r1 at_start s (λ _ _, true)) && k at_start s
  | Bol => at_start && k at_start s
  | Eol => match s with [] => k at_start s | _ => false end
  end.

(** [r.test(s)]: a match may start at any position. *)
Definition test (r : Re) (s : string) : bool :=
  let cs := list_ascii_of_string s in
  existsb (λ i, matches r (bool_decide (i = 0%nat)) (drop i cs) (λ _ _, true))
          (seq 0 (S (length cs))).

End Regex.

(** ** Schema validation

    The schemas of src/lib/validation.ts are values of the validation
    library [zod]; the library itself is not part of the sources.  [Schema]
    has the combinators the schemas are built from, and [parse] gives them
    the behaviour of the library (version 3): every key of an object and
    every check of a string is evaluated, each failure adding an issue. *)

Module Zod.
Import Js Regex.

Inductive StringCheck :=
| CkEmail (message : option string)
| CkMin (n : Z) (message : option string)
| CkMax (n : Z) (message : option string)
| CkRegex (r : Re) (message : option string)
| CkTrim.

Inductive Schema :=
| ZString (checks : list StringCheck)
| ZEnum (options : list string)
| ZDefault (inner : Schema) (value : JsValue)
| ZOptional (inner : Schema)
| ZArray (item : Schema)
| ZObject (shape : list (string * Schema)).

(** An issue of a [ZodError]: where, and the message. *)
Record Issue := mkIssue { path : list string; issue_message : string }.

#[global] Instance Issue_eq_dec : EqDecision Issue.
Proof. solve_decision. Defined.

(** The library's pattern for [.email()], case-insensitive and anchored
    at both ends: no leading dot and no two dots in a row; a local part
    of letters, digits, underscore, apostrophe, plus, hyphen and dot that
    does not end in a dot or an apostrophe; an at sign; one or more
    labels (a letter or digit, then letters, digits and hyphens) each
    closed by a dot; two or more letters. *)
Definition emailRegex : Re :=
  let local_any := ci (any_of [upper; digit; lit "_"; lit "'"; lit "+"; lit "-"; lit "."]) in
  let local_last := ci (any_of [upper; digit; lit "_"; lit "+"; lit "-"]) in
  let alnum := ci (any_of [upper; digit]) in
  let alnum_hyphen := ci (any_of [upper; digit; lit "-"]) in
  seq_of [ Bol;
           NegLook (Chr (lit "."));
           NegLook (seq_of [Star (Chr dot); Chr (lit "."); Chr (lit ".")]);
           Star (Chr local_any);
           Chr local_last;
           Chr (lit "@");
           Plus (seq_of [Chr alnum; Star (Chr alnum_hyphen); Chr (lit ".")]);
           AtLeast2 (Chr (ci upper));
           Eol ].

(** [String.prototype.trim], for code units below 256. *)
Fixpoint trim_start (cs : list ascii) : list ascii :=
  match cs with
  | c :: cs' => if space c then trim_start cs' else cs
  | [] => []
  end.

Definition trim (s : string) : string :=
  string_of_list_ascii
    (rev (trim_start (rev (trim_start (list_ascii_of_string s))))).

(** The name the library gives the type of a value. *)
Definition parsed_type (v : JsValue) : string :=
  match v with
  | JUndefined => "undefined"
  | JNull => "null"
  | JBool _ => "boolean"
  | JNum _ => "number"
  | JStr _ => "string"
  | JArr _ => "array"
  | JObj _ => "object"
  end.

Definition invalid_type (expected : string) (v : JsValue) : string :=
  match v with
  | JUndefined => "Required"
  | _ => "Expected " +:+ expected +:+ ", received " +:+ parsed_type v
  end.

Definition str_length (s : string) : Z := Z.of_nat (String.length s).

(** One check of a string: the issues it adds and the data it leaves. *)
Definition run_check (p : list string) (ck : StringCheck) (data : string)
  : list Issue * string :=
  match ck with
  | CkEmail m =>
      (if Regex.test emailRegex data then []
       else [mkIssue p (default "Invalid email" m)], data)
  | CkMin n m =>
      (if bool_decide (str_length data < n)
       then [mkIssue p (default ("String must contain at least " +:+ pretty n
                                 +:+ " character(s)") m)]
       else [], data)
  | CkMax n m =>
      (if bool_decide (str_length data > n)
       then [mkIssue p (default ("String must contain at most " +:+ pretty n
                                 +:+ " character(s)") m)]
       else [], data)
  | CkRegex r m =>
      (if Regex.test r data then [] else [mkIssue p (default "Invalid" m)], data)
  | CkTrim => ([], trim data)
  end.

(** All checks, in order; none stops the others. *)
Fixpoint run_checks (p : list string) (cks : list StringCheck) (data : string)
  : list Issue * string :=
  match cks with
  | [] => ([], data)
  | ck :: cks =>
      let '(is1, data) := run_check p ck data in
      let '(is2, data) := run_checks p cks data in
      (is1 ++ is2, data)
  end.

Definition join_values (options : list string) : string :=
  String.concat " | " ((λ o, "'" +:+ o +:+ "'") <$> options).

(** [parse schema p v]: the issues found in [v] at path [p], and the
    parsed value (meaningful when there is no issue). *)
Fixpoint parse (schema : Schema) (p : list string) (v : JsValue)
  : list Issue * JsValue :=
  match schema with
  | ZString checks =>
      match v with
      | JStr s => let '(iss, s') := run_checks p checks s in (iss, JStr s')
      | _ => ([mkIssue p (invalid_type "string" v)], v)
      end
  | ZEnum options =>
      match v with
      | JStr s =>
          if bool_decide (s ∈ options) then ([], v)
          else ([mkIssue p ("Invalid enum value. Expected " +:+ join_values options
                            +:+ ", received '" +:+ s +:+ "'")], v)
      | _ => ([mkIssue p (invalid_type (join_values options) v)], v)
      end
  | ZDefault inner value =>
      match v with
      | JUndefined => parse inner p value
      | _ => parse inner p v
      end
  | ZOptional inner =>
      match v with
      | JUndefined => ([], JUndefined)
      | _ => parse inner p v
      end
  | ZArray item =>
      match v with
      | JArr items =>
          let fix each (i : nat) (items : list JsValue) : list Issue * list JsValue :=
            match items with
            | [] => ([], [])
            | x :: items =>
                let '(is1, y) := parse item (p ++ [pretty i]) x in
                let '(is2, ys) := each (S i) items in
                (is1 ++ is2, y :: ys)
            end in
          let '(iss, ys) := each 0%nat items in (iss, JArr ys)
      | _ => ([mkIssue p (invalid_type "array" v)], v)
      end
  | ZObject shape =>
      match v with
      | JObj props =>
          let fix each (shape : list (string * Schema))
            : list Issue * list (string * JsValue) :=
            match shape with
            | [] => ([], [])
            | (key, s) :: shape =>
                let '(is1, y) := parse s (p ++ [key]) (lookup_prop key props) in
                let '(is2, ys) := each shape in
                (is1 ++ is2,
                 if is_undefined y && negb (bool_decide (key ∈ props.*1))
                 then ys else (key, y) :: ys)
            end in
          let '(iss, ys) := each shape in (iss, JObj ys)
      | _ => ([mkIssue p (invalid_type "object" v)], v)
      end
  end.

Definition shape_of (schema : Schema) : list (string * Schema) :=
  match schema with
  | ZObject shape => shape
  | _ => []
  end.

(** The issues of the fields of an object, in the order of the shape. *)
Definition object_issues (p : list string) (props : list (string * JsValue))
    (shape : list (string * Schema)) : list Issue :=
  flat_map (λ '(key, s), (parse s (p ++ [key]) (lookup_prop key props)).1) shape.

(** [schema.safeParse(v)]. *)
Inductive SafeParseResult :=
| ParseSuccess (data : JsValue)
| ParseFailure (issues : list Issue).

Definition safeParse (schema : Schema) (v : JsValue) : SafeParseResult :=
  match parse schema [] v with
  | ([], data) => ParseSuccess data
  | (issues, _) => ParseFailure issues
  end.

End Zod.

(** ** The schemas (src/lib/validation.ts) and their use by the routes *)

Module Validation.
Import Js Regex Zod.

(** The password pattern: from the start of the subject, three
    lookaheads, each asking for a lower-case letter, an upper-case letter
    and a digit after any run of characters other than line
    terminators. *)
Definition passwordRegex : Re :=
  seq_of [ Bol;
           Look (seq_of [Star (Chr dot); Chr lower]);
           Look (seq_of [Star (Chr dot); Chr upper]);
           Look (seq_of [Star (Chr dot); Chr digit]) ].

(** The phone pattern: an optional plus sign, then one or more of
    digits, white space, hyphen and parentheses, up to the end. *)
Definition phoneRegex : Re :=
  seq_of [ Bol;
           Opt (Chr (lit "+"));
           Plus (Chr (any_of [digit; space; lit "-"; lit "("; lit ")"]));
           Eol ].

Definition msg_email_format := "Invalid email format".
Definition msg_email_required := "Email is required".
Definition msg_password_length := "Password must be at least 8 characters long".
Definition msg_password_classes :=
  "Password must contain at least one uppercase letter, one lowercase letter, and one number".

Definition registerSchema : Schema :=
  ZObject
    [ ("email", ZString [ CkEmail (Some msg_email_format);
                          CkMin 1 (Some msg_email_required) ]);
      ("password", ZString [ CkMin 8 (Some msg_password_length);
                             CkRegex passwordRegex (Some msg_password_classes) ]);
      ("firstName", ZString [ CkMin 1 (Some "First name is required");
                              CkMax 50 (Some "First name cannot exceed 50 characters");
                              CkTrim ]);
      ("lastName", ZString [ CkMin 1 (Some "Last name is required");
                             CkMax 50 (Some "Last name cannot exceed 50 characters");
                             CkTrim ]);
      ("role", ZDefault (ZEnum ["candidate"; "recruiter"]) (JStr "candidate")) ].

Definition loginSchema : Schema :=
  ZObject
    [ ("email", ZString [ CkEmail (Some msg_email_format);
                          CkMin 1 (Some msg_email_required) ]);
      ("password", ZString [ CkMin 1 (Some "Password is required") ]) ].

Definition updateProfileSchema : Schema :=
  ZObject
    [ ("firstName", ZOptional (ZString [CkMin 1 None; CkMax 50 None]));
      ("lastName", ZOptional (ZString [CkMin 1 None; CkMax 50 None]));
      ("phone", ZOptional (ZString [CkRegex phoneRegex (Some "Invalid phone number")]));
      ("bio", ZOptional (ZString [CkMax 500 None]));
      ("skills", ZOptional (ZArray (ZString [CkTrim])));
      ("experience", ZOptional (ZString [CkMax 2000 None])) ].

(** The loop of the routes over [validationResult.error.errors]: the
    message of each issue is pushed on the list kept under the
    dot-joined path of the issue. *)
Definition push_issue (errors : gmap string (list string)) (issue : Issue)
  : gmap string (list string) :=
  let path := String.concat "." (Zod.path issue) in
  <[path := default [] (errors !! path) ++ [issue_message issue]]> errors.

Definition collect_errors (issues : list Issue) : gmap string (list string) :=
  foldl push_issue ∅ issues.

(** The messages of the issues located at the dot-joined path [p], in
    the order of the issues. *)
Definition messages_at (p : string) (issues : list Issue) : list string :=
  issue_message <$> filter (λ i, String.concat "." (Zod.path i) = p) issues.

(** A list of messages as the entry of an error mapping: no entry when
    there is no message. *)
Definition entry_of (messages : list string) : option (list string) :=
  match messages with
  | [] => None
  | _ => Some messages
  end.

(** Validation as the routes perform it: the error mapping of the
    [ValidationError] they throw, or the parsed data they go on with. *)
Definition validate (schema : Schema) (body : JsValue)
  : gmap string (list string) * option JsValue :=
  match safeParse schema body with
  | ParseSuccess data => (∅, Some data)
  | ParseFailure issues => (collect_errors issues, None)
  end.

(** A field of the parsed data that the schema made a string. *)
Definition field (data : JsValue) (k : string) : string :=
  match data with
  | JObj props => match lookup_prop k props with JStr s => s | _ => "" end
  | _ => ""
  end.

(** A registration body every rule of the schema accepts: four strings
    within their bounds and patterns, and a role that is absent or one
    of the two the schema lists. *)
Record conformant (props : list (string * JsValue))
    (email password firstName lastName : string) : Prop := {
  conf_email : lookup_prop "email" props = JStr email;
  conf_email_format : Regex.test emailRegex email = true;
  conf_email_length : 1 ≤ str_length email;
  conf_password : lookup_prop "password" props = JStr password;
  conf_password_length : 8 ≤ str_length password;
  conf_password_classes : Regex.test passwordRegex password = true;
  conf_firstName : lookup_prop "firstName" props = JStr firstName;
  conf_firstName_length : 1 ≤ str_length firstName ≤ 50;
  conf_lastName : lookup_prop "lastName" props = JStr lastName;
  conf_lastName_length : 1 ≤ str_length lastName ≤ 50;
  conf_role : lookup_prop "role" props = JUndefined ∨
              lookup_prop "role" props = JStr "candidate" ∨
              lookup_prop "role" props = JStr "recruiter"
}.

(** The role the schema settles on. *)
Definition role_of (v : JsValue) : string :=
  match v with
  | JStr r => r
  | _ => "candidate"
  end.

(** The body of a registration request with the given fields. *)
Definition register_body (email password firstName lastName : string) : JsValue :=
  JObj [ ("email", JStr email); ("password", JStr password);
         ("firstName", JStr firstName); ("lastName", JStr lastName) ].

End Validation.

(** ** The token service (src/lib/auth.ts) *)

Module Auth.
Import Js.

Record TokenPayload := mkTokenPayload {
  userId : string;
  email : string;
  role : string
}.

(** The claims a token carries: those of the payload, and the two
    timestamps (in seconds) the library adds. *)
Record Claims := mkClaims {
  claims_payload : TokenPayload;
  iat : Z;
  exp : Z
}.

#[global] Instance TokenPayload_eq_dec : EqDecision TokenPayload.
Proof. solve_decision. Defined.

#[global] Instance Claims_eq_dec : EqDecision Claims.
Proof. solve_decision. Defined.

(** The primitives of the token library ([jsonwebtoken]), which is not
    part of the sources: the keyed MAC, and the compact serialisation of
    claims and signature with its inverse. *)
Class JwtLib := {
  hmac : string → Claims → string;
  jws_encode : Claims → string → string;
  jws_decode : string → option (Claims * string)
}.

(** Decoding inverts encoding. *)
Class JwtLibLaws `{JwtLib} : Prop := {
  jws_decode_encode : ∀ c s, jws_decode (jws_encode c s) = Some (c, s)
}.

(** The two settings read from the environment; [JWT_EXPIRES_IN] is the
    lifetime the setting denotes, in seconds. *)
Class AuthConfig := {
  JWT_SECRET : string;
  JWT_EXPIRES_IN : Z
}.

(** What the library throws. *)
Inductive JwtError :=
| JsonWebTokenError (message : string)
| TokenExpiredError (expiredAt : Z).

(** The request, as far as the routes read it.  [json] is [None] when the
    body is not JSON. *)
Record Request := mkRequest {
  ip : option string;
  authorization : option string;
  cookie_token : option string;
  json : option JsValue
}.

Section TokenService.
Context `{JwtLib} `{AuthConfig}.

(** The clock of the library counts seconds. *)
Definition seconds (now : Z) : Z := now / 1000.

(** Modelled from the spec: [jwt.sign] of the library, missing from the
    sources.  It constructs the payload with [issuedAt = now] and
    [expiresAt = now + lifetime], signs it with the secret using a
    symmetric MAC, and returns the encoded credential. *)
Definition jwt_sign (payload : TokenPayload) (secret : string) (expiresIn : Z)
    (now : Z) : string :=
  let claims := mkClaims payload (seconds now) (seconds now + expiresIn) in
  jws_encode claims (hmac secret claims).

(** Modelled from the spec: [jwt.verify] of the library, missing from
    the sources.  It decodes, checks the signature against the secret,
    checks [expiresAt > now], and returns the payload; each failed step
    throws. *)
Definition jwt_verify (token : string) (secret : string) (now : Z)
  : Result JwtError Claims :=
  match jws_decode token with
  | None => Throw (JsonWebTokenError "jwt malformed")
  | Some (claims, signature) =>
      if bool_decide (signature = hmac secret claims) then
        if bool_decide (exp claims > seconds now) then Return claims
        else Throw (TokenExpiredError (exp claims))
      else Throw (JsonWebTokenError "invalid signature")
  end.

(** [generateToken], at clock reading [now] (milliseconds). *)
Definition generateToken (payload : TokenPayload) (now : Z) : string :=
  jwt_sign payload JWT_SECRET JWT_EXPIRES_IN now.

(** [verifyToken]: whatever the library throws is caught and answered
    with [null]. *)
Definition verifyToken (token : string) (now : Z)
  : Result JwtError (option Claims) :=
  try_catch (claims ← jwt_verify token JWT_SECRET now; Return (Some claims))
            (λ _, Return None).

(** [extractTokenFromRequest]. *)
Definition extractTokenFromRequest (request : Request) : option string :=
  match authorization request with
  | Some authHeader =>
      if String.prefix "Bearer " authHeader
      then Some (String.substring 7 (String.length authHeader - 7) authHeader)
      else match cookie_token request with
           | Some "" | None => None
           | Some value => Some value
           end
  | None =>
      match cookie_token request with
      | Some "" | None => None
      | Some value => Some value
      end
  end.

(** [authenticateRequest]. *)
Definition authenticateRequest (request : Request) (now : Z)
  : Result JwtError (option Claims) :=
  match extractTokenFromRequest request with
  | None | Some "" => Return None
  | Some token => verifyToken token now
  end.

End TokenService.

End Auth.

(** ** The user model (src/lib/models/User.ts) *)

Module User.
Import Js.

(** A stored document. *)
Record UserDoc := mkUserDoc {
  _id : string;
  email : string;
  password : string;
  firstName : string;
  lastName : string;
  role : string;
  profilePicture : string;
  phone : option string;
  bio : option string;
  skills : list string;
  experience : option string;
  createdAt : Z;
  updatedAt : Z
}.

Definition opt_prop (k : string) (v : option string) : list (string * JsValue) :=
  match v with
  | Some s => [(k, JStr s)]
  | None => []
  end.

(** The plain object the library hands to the [toJSON] transform: every
    path of the document that is set, the password among them. *)
Definition toObject (doc : UserDoc) : gmap string JsValue :=
  list_to_map
    ([ ("_id", JStr (_id doc));
       ("email", JStr (email doc));
       ("password", JStr (password doc));
       ("firstName", JStr (firstName doc));
       ("lastName", JStr (lastName doc));
       ("role", JStr (role doc));
       ("profilePicture", JStr (profilePicture doc)) ]
     ++ opt_prop "phone" (phone doc)
     ++ opt_prop "bio" (bio doc)
     ++ [ ("skills", JArr (JStr <$> skills doc)) ]
     ++ opt_prop "experience" (experience doc)
     ++ [ ("createdAt", JNum (createdAt doc));
          ("updatedAt", JNum (updatedAt doc));
          ("__v", JNum 0) ]).

(** The [transform] of the schema options: [delete ret.password]. *)
Definition transform (ret : gmap string JsValue) : gmap string JsValue :=
  delete "password" ret.

(** [doc.toJSON()]. *)
Definition toJSON (doc : UserDoc) : gmap string JsValue :=
  transform (toObject doc).

End User.

(** ** The routes (src/app/api/auth/register/route.ts and the login and
       profile routes) *)

Module Pipeline.
Import Js Errors.
Export Auth.

(** The states of section 4.5 of the specification.  A route is in
    RATE_CHECK when it consults the rate limiter, in PARSE_VALIDATE when
    it reads the body and when it validates it, in AUTHENTICATE when it
    authenticates the request, in EXECUTE when it calls the storage
    collaborator, and in FORMAT when it builds its response or formats
    a failure. *)
Inductive Stage := RATE_CHECK | PARSE_VALIDATE | AUTHENTICATE | EXECUTE | FORMAT.

#[global] Instance Stage_eq_dec : EqDecision Stage.
Proof. solve_decision. Defined.

(** A further operation of stage [s]: the stage is entered unless the
    route is in it already. *)
Definition continue_stage (s : Stage) (t : list Stage) : list Stage :=
  if bool_decide (last t = Some s) then t else t ++ [s].

Arguments continue_stage : simpl never.

(** The fields [new User(...)] is given by the registration route. *)
Record NewUser := mkNewUser {
  new_email : string;
  new_password : string;
  new_firstName : string;
  new_lastName : string;
  new_role : string
}.

(** The storage collaborator, as the routes call it.  Each operation
    may throw and may change the store.  [User_save] stands for
    [new User(fields).save()] and answers with the saved document;
    [comparePassword] is the method of the model. *)
Class Storage := {
  DB : Type;
  connectToDatabase : DB → Result Thrown () * DB;
  User_findOne : string → DB → Result Thrown (option User.UserDoc) * DB;
  User_save : NewUser → Z → DB → Result Thrown User.UserDoc * DB;
  User_findById : string → DB → Result Thrown (option User.UserDoc) * DB;
  User_findByIdAndUpdate : string → JsValue → DB → Result Thrown (option User.UserDoc) * DB;
  comparePassword : User.UserDoc → string → Result Thrown bool
}.

(** The body of a response. *)
Inductive Body :=
| BodySuccess (message : string) (user : gmap string JsValue) (token : option string)
| BodyRateLimited (error code : string) (retryAfter : Z)
| BodyError (r : ErrorResponse).

(** The rate-limit headers; [x_reset] is the instant printed in ISO
    form. *)
Record RateLimitHeaders := mkRateLimitHeaders {
  x_limit : string;
  x_remaining : string;
  x_reset : Z
}.

Record Response := mkResponse {
  status : Z;
  body : Body;
  headers : option RateLimitHeaders;
  cookie : option string
}.

Section Routes.
Context `{JwtLib} `{AuthConfig} `{Storage}.

(** What a request runs against: the table of the rate limiter, the
    store, the console, and the stages entered so far. *)
Record World := mkWorld {
  limiter : gmap string RateLimit.Entry;
  db : DB;
  console : list LogLine;
  trace : list Stage
}.

(** The body of a [try] block: it may throw, and it changes the
    world. *)
Record M (A : Type) := mkM { runM : World → Result Thrown A * World }.
Arguments mkM {A} _.
Arguments runM {A} _ _.

#[global] Instance M_ret : MRet M := λ A a, mkM (λ w, (Return a, w)).

#[global] Instance M_bind : MBind M := λ A B k c,
  mkM (λ w, match runM c w with
            | (Return a, w) => runM (k a) w
            | (Throw e, w) => (Throw e, w)
            end).

Definition throw {A} (e : Thrown) : M A := mkM (λ w, (Throw e, w)).

(** The operations of the routes record the stage they belong to:
    [enter] where an operation opens its stage, [within] where it may
    follow another operation of the same stage. *)
Definition enter (s : Stage) : M () :=
  mkM (λ w, (Return (),
             mkWorld (limiter w) (db w) (console w) (trace w ++ [s]))).

Definition within (s : Stage) : M () :=
  mkM (λ w, (Return (),
             mkWorld (limiter w) (db w) (console w) (continue_stage s (trace w)))).

(** A call of the storage collaborator. *)
Definition storage {A} (op : DB → Result Thrown A * DB) : M A :=
  within EXECUTE;;
  mkM (λ w, let '(r, d) := op (db w) in
            (r, mkWorld (limiter w) d (console w) (trace w))).

(** [rateLimiter.check(...)]. *)
Definition rateLimiter_check (now : Z) (identifier : string) (limit windowMs : Z)
  : M RateLimit.RateLimitResult :=
  enter RATE_CHECK;;
  mkM (λ w, let '(r, t) := RateLimit.check now identifier limit windowMs (limiter w) in
            (Return r, mkWorld t (db w) (console w) (trace w))).

(** [await request.json()]: a body that is not JSON throws a
    [SyntaxError]. *)
Definition request_json (request : Request) : M JsValue :=
  enter PARSE_VALIDATE;;
  match json request with
  | Some v => mret v
  | None => throw (Other (JObj [ ("name", JStr "SyntaxError");
                                 ("message", JStr "Unexpected end of JSON input") ]))
  end.

(** [schema.safeParse(body)] followed by the block that throws the
    [ValidationError]. *)
Definition parse_or_throw (schema : Zod.Schema) (body : JsValue) : M JsValue :=
  within PARSE_VALIDATE;;
  match Validation.validate schema body with
  | (_, Some data) => mret data
  | (errors, None) => throw (new_ValidationError errors)
  end.

(** [NextResponse.json(...)], with the headers and the cookie the
    route sets on it. *)
Definition respond (response : Response) : M Response :=
  enter FORMAT;; mret response.

(** [request.ip || 'anonymous']. *)
Definition clientIP_of (request : Request) : string :=
  match ip request with
  | Some "" | None => "anonymous"
  | Some a => a
  end.

(** [authenticateRequest(request)] inside a route. *)
Definition authenticate (request : Request) (now : Z) : M (option Claims) :=
  enter AUTHENTICATE;;
  match authenticateRequest request now with
  | Return r => mret r
  | Throw (JsonWebTokenError m) =>
      throw (Other (JObj [("name", JStr "JsonWebTokenError"); ("message", JStr m)]))
  | Throw (TokenExpiredError at_) =>
      throw (Other (JObj [("name", JStr "TokenExpiredError");
                          ("message", JStr "jwt expired"); ("expiredAt", JNum at_)]))
  end.

Definition rate_limited_response (error : string) (r : RateLimit.RateLimitResult)
  : Response :=
  mkResponse 429
    (BodyRateLimited error "RATE_LIMIT_EXCEEDED" (RateLimit.reset r))
    (Some (mkRateLimitHeaders (pretty (RateLimit.limit r))
                              (pretty (RateLimit.remaining r))
                              (RateLimit.reset r)))
    None.

(** The [try] block of the registration route. *)
Definition register_try (request : Request) (now : Z) : M Response :=
  let clientIP := clientIP_of request in
  rateLimitResult ← rateLimiter_check now ("register:" +:+ clientIP)
                      (RateLimit.policy_limit RateLimit.AUTH)
                      (RateLimit.policy_windowMs RateLimit.AUTH);
  if negb (RateLimit.success rateLimitResult) then
    respond (rate_limited_response "Too many registration attempts" rateLimitResult)
  else
    body ← request_json request;
    data ← parse_or_throw Validation.registerSchema body;
    let email := Validation.field data "email" in
    let password := Validation.field data "password" in
    let firstName := Validation.field data "firstName" in
    let lastName := Validation.field data "lastName" in
    let role := Validation.field data "role" in
    storage connectToDatabase;;
    existingUser ← storage (User_findOne email);
    match existingUser with
    | Some _ => throw (new_ConflictError (Some "User with this email already exists"))
    | None =>
        user ← storage (User_save (mkNewUser email password firstName lastName role) now);
        let token := generateToken
                       (mkTokenPayload (User._id user) (User.email user) (User.role user))
                       now in
        respond (mkResponse 201
                   (BodySuccess "Registration successful" (User.toJSON user) (Some token))
                   None (Some token))
    end.

(** The [try] block of the login route. *)
Definition login_try (request : Request) (now : Z) : M Response :=
  let clientIP := clientIP_of request in
  rateLimitResult ← rateLimiter_check now ("login:" +:+ clientIP)
                      (RateLimit.policy_limit RateLimit.AUTH)
                      (RateLimit.policy_windowMs RateLimit.AUTH);
  if negb (RateLimit.success rateLimitResult) then
    respond (rate_limited_response "Too many login attempts" rateLimitResult)
  else
    body ← request_json request;
    data ← parse_or_throw Validation.loginSchema body;
    let email := Validation.field data "email" in
    let password := Validation.field data "password" in
    storage connectToDatabase;;
    found ← storage (User_findOne email);
    match found with
    | None => throw (new_AuthenticationError (Some "Invalid email or password"))
    | Some user =>
        isPasswordValid ← storage (λ d, (comparePassword user password, d));
        if negb isPasswordValid then
          throw (new_AuthenticationError (Some "Invalid email or password"))
        else
          let token := generateToken
                         (mkTokenPayload (User._id user) (User.email user) (User.role user))
                         now in
          respond (mkResponse 200
                     (BodySuccess "Login successful" (User.toJSON user) (Some token))
                     None (Some token))
    end.

(** The [try] block of the profile route, [GET]. *)
Definition profile_GET_try (request : Request) (now : Z) : M Response :=
  tokenPayload ← authenticate request now;
  match tokenPayload with
  | None => throw (new_AuthenticationError (Some "Authentication token required"))
  | Some claims =>
      storage connectToDatabase;;
      found ← storage (User_findById (userId (claims_payload claims)));
      match found with
      | None => throw (new_NotFoundError (Some "User not found"))
      | Some user =>
          respond (mkResponse 200
                     (BodySuccess "Profile retrieved successfully" (User.toJSON user) None)
                     None None)
      end
  end.

(** The update the profile route hands to the store: the parsed data
    with [updatedAt] added. *)
Definition with_updatedAt (data : JsValue) (now : Z) : JsValue :=
  match data with
  | JObj props => JObj (props ++ [("updatedAt", JNum now)])
  | _ => JObj [("updatedAt", JNum now)]
  end.

(** The [try] block of the profile route, [PUT]. *)
Definition profile_PUT_try (request : Request) (now : Z) : M Response :=
  tokenPayload ← authenticate request now;
  match tokenPayload with
  | None => throw (new_AuthenticationError (Some "Authentication token required"))
  | Some claims =>
      body ← request_json request;
      data ← parse_or_throw Validation.updateProfileSchema body;
      storage connectToDatabase;;
      found ← storage (User_findByIdAndUpdate (userId (claims_payload claims))
                         (with_updatedAt data now));
      match found with
      | None => throw (new_NotFoundError (Some "User not found"))
      | Some user =>
          respond (mkResponse 200
                     (BodySuccess "Profile updated successfully" (User.toJSON user) None)
                     None None)
      end
  end.

(** [formatErrorResponse(error)] in the [catch] block of a route; what
    it writes goes to the console. *)
Definition format_error (error : Thrown) (w : World)
  : Completion ErrorResponse * World :=
  let '(formatted, lines) := formatErrorResponse error in
  (formatted,
   mkWorld (limiter w) (db w) (console w ++ lines) (trace w ++ [FORMAT])).

(** [try { ... } catch (error) { ... }] of every route: a thrown value
    is formatted and answered with the status of its envelope; a
    [TypeError] of the formatter itself escapes the route. *)
Definition route (block : M Response) (w : World)
  : Completion Response * World :=
  match runM block w with
  | (Return response, w) => (Return response, w)
  | (Throw error, w) =>
      let '(formatted, w) := format_error error w in
      (errorResponse ← formatted;
       Return (mkResponse (resp_statusCode errorResponse) (BodyError errorResponse)
                 None None),
       w)
  end.

Definition register_POST (request : Request) (now : Z) := route (register_try request now).
Definition login_POST (request : Request) (now : Z) := route (login_try request now).
Definition profile_GET (request : Request) (now : Z) := route (profile_GET_try request now).
Definition profile_PUT (request : Request) (now : Z) := route (profile_PUT_try request now).

End Routes.

Arguments World {_}.
Arguments mkWorld {_} _ _ _ _.




(** The stages a request added to the trace. *)
Definition stages_added `{Storage} (w w' : World) (t : list Stage) : Prop :=
  trace w' = trace w ++ t.

(** The stages the routes can go through. *)
Definition public_stages : list (list Stage) :=
  [ [RATE_CHECK; FORMAT];
    [RATE_CHECK; PARSE_VALIDATE; FORMAT];
    [RATE_CHECK; PARSE_VALIDATE; EXECUTE; FORMAT] ].

Definition profile_GET_stages : list (list Stage) :=
  [ [AUTHENTICATE; FORMAT];
    [AUTHENTICATE; EXECUTE; FORMAT] ].

Definition profile_PUT_stages : list (list Stage) :=
  [ [AUTHENTICATE; FORMAT];
    [AUTHENTICATE; PARSE_VALIDATE; FORMAT];
    [AUTHENTICATE; PARSE_VALIDATE; EXECUTE; FORMAT] ].

(** Whether the user of a success body carries a password. *)
Definition exposes_password (r : Response) : bool :=
  match body r with
  | BodySuccess _ user _ => bool_decide (is_Some (user !! "password"))
  | _ => false
  end.

(** What a route leaves behind: stages out of [allowed], and no password
    in the user of a success body. *)
Definition outcome_ok `{Storage} (allowed : list (list Stage)) (w : World)
    (out : Completion Response * World) : Prop :=
  (∃ t, stages_added w out.2 t ∧ t ∈ allowed) ∧
  (∀ r, out.1 = Return r → exposes_password r = false).

End Pipeline.

(** ** A token library, a configuration and a store to run the routes on

    The examples of the second part evaluate the routes on these: a
    serialisation that prefixes every character, a MAC that only
    concatenates, the default settings of src/lib/auth.ts, and a store
    that keeps its documents in a list. *)

Module Reference.
Import Js Errors Pipeline.

Fixpoint enc_str (s rest : string) : string :=
  match s with
  | EmptyString => String "." rest
  | String c s => String "," (String c (enc_str s rest))
  end.

Fixpoint dec_str (t : string) : option (string * string) :=
  match t with
  | String "." rest => Some (EmptyString, rest)
  | String "," (String c t) =>
      match dec_str t with
      | Some (s, rest) => Some (String c s, rest)
      | None => None
      end
  | _ => None
  end.

Fixpoint enc_pos (p : positive) (rest : string) : string :=
  match p with
  | xH => String "." rest
  | xO p => String "0" (enc_pos p rest)
  | xI p => String "1" (enc_pos p rest)
  end.

Fixpoint dec_pos (t : string) : option (positive * string) :=
  match t with
  | String "." rest => Some (xH, rest)
  | String "0" t =>
      match dec_pos t with Some (p, rest) => Some (xO p, rest) | None => None end
  | String "1" t =>
      match dec_pos t with Some (p, rest) => Some (xI p, rest) | None => None end
  | _ => None
  end.

Definition enc_Z (z : Z) (rest : string) : string :=
  match z with
  | Z0 => String "z" rest
  | Zpos p => String "p" (enc_pos p rest)
  | Zneg p => String "n" (enc_pos p rest)
  end.

Definition dec_Z (t : string) : option (Z * string) :=
  match t with
  | String "z" rest => Some (Z0, rest)
  | String "p" t =>
      match dec_pos t with Some (p, rest) => Some (Zpos p, rest) | None => None end
  | String "n" t =>
      match dec_pos t with Some (p, rest) => Some (Zneg p, rest) | None => None end
  | _ => None
  end.

Definition encode (c : Claims) (signature : string) : string :=
  enc_str (userId (claims_payload c))
    (enc_str (email (claims_payload c))
       (enc_str (role (claims_payload c))
          (enc_Z (iat c) (enc_Z (exp c) (enc_str signature EmptyString))))).

Definition decode (t : string) : option (Claims * string) :=
  '(u, t) ← dec_str t;
  '(e, t) ← dec_str t;
  '(r, t) ← dec_str t;
  '(i, t) ← dec_Z t;
  '(x, t) ← dec_Z t;
  '(s, t) ← dec_str t;
  match t with
  | EmptyString => Some (mkClaims (mkTokenPayload u e r) i x, s)
  | _ => None
  end.

#[global] Instance jwt : JwtLib := {|
  hmac secret c :=
    secret +:+ "/" +:+ userId (claims_payload c) +:+ "/" +:+ email (claims_payload c)
           +:+ "/" +:+ role (claims_payload c) +:+ "/" +:+ pretty (iat c)
           +:+ "/" +:+ pretty (exp c);
  jws_encode := encode;
  jws_decode := decode
|}.

(** The defaults of the two settings: the fallback secret, and seven
    days. *)
#[global] Instance config : AuthConfig := {|
  JWT_SECRET := "insecure_default_secret";
  JWT_EXPIRES_IN := 7 * 24 * 60 * 60
|}.

(** The driver's duplicate-key error on the unique index of [email]. *)
Definition duplicate_email (email : string) : JsValue :=
  JObj [ ("name", JStr "MongoServerError");
         ("message", JStr "E11000 duplicate key error collection: users index: email_1");
         ("code", JNum 11000);
         ("keyPattern", JObj [("email", JNum 1)]);
         ("keyValue", JObj [("email", JStr email)]) ].

Definition find_by (f : User.UserDoc → string) (x : string) (d : list User.UserDoc)
  : option User.UserDoc :=
  snd <$> list_find (λ u, f u = x) d.

Definition str_field (patch : JsValue) (k : string) (old : string) : string :=
  match patch with
  | JObj props => match lookup_prop k props with JStr s => s | _ => old end
  | _ => old
  end.

Definition opt_field (patch : JsValue) (k : string) (old : option string) : option string :=
  match patch with
  | JObj props => match lookup_prop k props with JStr s => Some s | _ => old end
  | _ => old
  end.

Definition num_field (patch : JsValue) (k : string) (old : Z) : Z :=
  match patch with
  | JObj props => match lookup_prop k props with JNum n => n | _ => old end
  | _ => old
  end.

Definition apply_patch (patch : JsValue) (u : User.UserDoc) : User.UserDoc :=
  User.mkUserDoc (User._id u) (User.email u) (User.password u)
    (str_field patch "firstName" (User.firstName u))
    (str_field patch "lastName" (User.lastName u))
    (User.role u) (User.profilePicture u)
    (opt_field patch "phone" (User.phone u))
    (opt_field patch "bio" (User.bio u))
    (User.skills u)
    (opt_field patch "experience" (User.experience u))
    (User.createdAt u)
    (num_field patch "updatedAt" (User.updatedAt u)).

Definition hashed (plain : string) : string := "$2a$12$" +:+ plain.

#[global] Instance store : Storage := {|
  DB := list User.UserDoc;
  connectToDatabase d := (Return (), d);
  User_findOne email d := (Return (find_by User.email email d), d);
  User_save fields now d :=
    match find_by User.email (new_email fields) d with
    | Some _ => (Throw (Other (duplicate_email (new_email fields))), d)
    | None =>
        let u := User.mkUserDoc ("u" +:+ pretty (length d)) (new_email fields)
                   (hashed (new_password fields)) (new_firstName fields)
                   (new_lastName fields) (new_role fields) "" None None [] None
                   now now in
        (Return u, d ++ [u])
    end;
  User_findById id d := (Return (find_by User._id id d), d);
  User_findByIdAndUpdate id patch d :=
    match find_by User._id id d with
    | Some u =>
        let u' := apply_patch patch u in
        (Return (Some u'),
         (λ v, if bool_decide (User._id v = id) then u' else v) <$> d)
    | None => (Return None, d)
    end;
  comparePassword u plain := Return (bool_decide (User.password u = hashed plain))
|}.

Definition empty_world : World := mkWorld ∅ ([] : list User.UserDoc) [] [].

(** A registered user, her store, and requests of hers. *)
Definition ada : User.UserDoc :=
  User.mkUserDoc "u0" "ada@example.com" (hashed "Passw0rdX") "Ada" "Lovelace"
    "candidate" "" None None [] None 1000 1000.

Definition ada_world : World := mkWorld ∅ [ada] [] [].

Definition ada_token (now : Z) : string :=
  generateToken (mkTokenPayload "u0" "ada@example.com" "candidate") now.

Definition register_request : Request :=
  mkRequest (Some "203.0.113.7") None None
    (Some (Validation.register_body "ada@example.com" "Passw0rdX" "Ada" "Lovelace")).

Definition login_request : Request :=
  mkRequest (Some "203.0.113.7") None None
    (Some (JObj [("email", JStr "ada@example.com"); ("password", JStr "Passw0rdX")])).

Definition profile_get_request (now : Z) : Request :=
  mkRequest (Some "203.0.113.7") (Some ("Bearer " +:+ ada_token now)) None None.


(** A world in which her address has used up its registrations until
    clock reading 10000, and a registration the schema rejects. *)
Definition exhausted_world : World :=
  mkWorld (<["register:203.0.113.7" := RateLimit.mkEntry 5 10000]> ∅)
          ([] : list User.UserDoc) [] [].

Definition invalid_register_request : Request :=
  mkRequest (Some "203.0.113.7") None None
    (Some (Validation.register_body "not-an-email" "abc" "" "D")).

(** What registering her at clock reading 5000 stores and answers. *)
Definition ada_registered : User.UserDoc :=
  User.mkUserDoc "u0" "ada@example.com" (hashed "Passw0rdX") "Ada" "Lovelace"
    "candidate" "" None None [] None 5000 5000.

Definition registration_response : Response :=
  mkResponse 201
    (BodySuccess "Registration successful" (User.toJSON ada_registered)
       (Some (ada_token 5000)))
    None (Some (ada_token 5000)).

Definition login_response (now : Z) : Response :=
  mkResponse 200
    (BodySuccess "Login successful" (User.toJSON ada) (Some (ada_token now)))
    None (Some (ada_token now)).

End Reference.

(** ** Runs of the rate limiter over several keys *)

Module RateLimitRuns.
Import RateLimit.

(** One call of [check]: the clock reading and the three arguments. *)
Record Call := mkCall {
  call_time : Z;
  call_key : string;
  call_limit : Z;
  call_windowMs : Z
}.

Definition call (c : Call) (requests : gmap string Entry)
  : RateLimitResult * gmap string Entry :=
  check (call_time c) (call_key c) (call_limit c) (call_windowMs c) requests.

(** The calls in order on one table. *)
Fixpoint run (calls : list Call) (requests : gmap string Entry)
  : list RateLimitResult * gmap string Entry :=
  match calls with
  | [] => ([], requests)
  | c :: calls =>
      let '(r, requests) := call c requests in
      let '(rs, requests) := run calls requests in
      (r :: rs, requests)
  end.

(** The answers a run gives to the calls on key [k]. *)
Fixpoint results_on (k : string) (calls : list Call) (requests : gmap string Entry)
  : list RateLimitResult :=
  match calls with
  | [] => []
  | c :: calls =>
      let '(r, requests) := call c requests in
      if bool_decide (call_key c = k)
      then r :: results_on k calls requests
      else results_on k calls requests
  end.

(** The calls on key [k]. *)
Definition on_key (k : string) (calls : list Call) : list Call :=
  filter (λ c, call_key c = k) calls.

(** The clock does not run backwards from [start] on, and no window is
    negative. *)
Fixpoint clock_advances (start : Z) (calls : list Call) : bool :=
  match calls with
  | [] => true
  | c :: calls =>
      bool_decide (start ≤ call_time c) && bool_decide (0 ≤ call_windowMs c)
      && clock_advances (call_time c) calls
  end.

(** What [check] stores for a key, given what the table held for it. *)
Definition next_entry (now windowMs : Z) (stored : option Entry) : Entry :=
  let kept := match stored with
              | Some e => if bool_decide (resetTime e < now - windowMs) then None else Some e
              | None => None
              end in
  let current := default (mkEntry 0 (now + windowMs)) kept in
  let current := if bool_decide (now > resetTime current)
                 then mkEntry 0 (now + windowMs) else current in
  mkEntry (count current + 1) (resetTime current).

Definition result_of (limit : Z) (e : Entry) : RateLimitResult :=
  mkResult (bool_decide (count e ≤ limit)) limit (Z.max 0 (limit - count e)) (resetTime e).

(** Two tables hold the same for [k], or the first has lost an entry for
    [k] that had expired before [T]. *)
Definition agree_upto (T : Z) (k : string) (m1 m2 : gmap string Entry) : Prop :=
  m1 !! k = m2 !! k ∨
  (m1 !! k = None ∧ ∃ e, m2 !! k = Some e ∧ resetTime e < T).

End RateLimitRuns.

(** ** Storage validation errors, as the formatter reads them *)

Module StorageErrors.
Import Js Errors.

(** The [message] of an entry of [errors]; an entry that is [null] or
    [undefined] has none to read. *)
Definition message_of (item : JsValue) : JsValue :=
  match get item "message" with
  | Return m => m
  | Throw _ => JUndefined
  end.

(** The details the formatter builds from the entries [fields] of
    [errors]: under each key, the one message of its entry. *)
Definition details_of (fields : list (string * JsValue)) : gmap string (list JsValue) :=
  foldl (λ acc key, <[key := [message_of (lookup_prop key fields)]]> acc)
        ∅ (fields.*1).

(** A storage validation error with the entries [fields]: named
    [ValidationError], its [errors] an object none of whose entries is
    [null] or [undefined]. *)
Definition validation_error_with (v : JsValue) (fields : list (string * JsValue)) : Prop :=
  get v "name" = Return (JStr "ValidationError") ∧
  get v "errors" = Return (JObj fields) ∧
  Forall (λ key, nullish (lookup_prop key fields) = false) (fields.*1).

End StorageErrors.

(** ** What the patterns and the profile schema accept *)

Module SchemaMeaning.
Import Js Regex Zod Validation.

(** Some character satisfies [p] before the first line terminator. *)
Fixpoint first_line_has (p : ascii → bool) (s : list ascii) : bool :=
  match s with
  | [] => false
  | c :: s' => p c || (dot c && first_line_has p s')
  end.

(** The first line holds a lower-case letter, an upper-case letter and a
    digit. *)
Definition three_classes (password : string) : bool :=
  let cs := list_ascii_of_string password in
  first_line_has lower cs && first_line_has upper cs && first_line_has digit cs.

(** The characters of a phone number. *)
Definition phone_char : ascii → bool :=
  any_of [digit; space; lit "-"; lit "("; lit ")"].

Definition nonempty {A} (l : list A) : bool :=
  match l with
  | [] => false
  | _ => true
  end.

(** One or more phone characters, after at most one plus sign. *)
Definition phone_like (phone : string) : bool :=
  match list_ascii_of_string phone with
  | c :: cs =>
      if lit "+" c then nonempty cs && forallb phone_char cs
      else forallb phone_char (c :: cs)
  | [] => false
  end.

(** The keys of the profile schema. *)
Definition profile_fields : list string :=
  (shape_of updateProfileSchema).*1.

End SchemaMeaning.

(** ** Runs of the routes, and what the storage collaborator may throw *)

Module RouteRuns.
Import Js Errors Pipeline.

Section Runs.
Context `{JwtLib} `{AuthConfig} `{Storage}.

(** Successive login requests, each with the clock reading at which
    it arrives; the answers are collected in order. *)
Fixpoint login_run (calls : list (Request * Z)) (w : World)
  : list (Completion Response) * World :=
  match calls with
  | [] => ([], w)
  | (request, now) :: calls =>
      let '(r, w) := login_POST request now w in
      let '(rs, w) := login_run calls w in
      (r :: rs, w)
  end.



(** The answer to a request that carries no valid token. *)
Definition token_required_response : Response :=
  mkResponse 401
    (BodyError (mkErrorResponse "Authentication token required"
                  (Some "AUTHENTICATION_ERROR") None 401))
    None None.

(** The answer of the login route to a failed credential check. *)
Definition invalid_credentials_response : Response :=
  mkResponse 401
    (BodyError (mkErrorResponse "Invalid email or password"
                  (Some "AUTHENTICATION_ERROR") None 401))
    None None.

(** The payload the routes sign for a user. *)
Definition payload_of (user : User.UserDoc) : TokenPayload :=
  mkTokenPayload (User._id user) (User.email user) (User.role user).

End Runs.

End RouteRuns.

(** * Properties *)

(** ** Properties of the rate limiter *)

Module RateLimitFacts.
Import RateLimit.

Lemma cleanup_lookup_keep (w : Z) (m : gmap string Entry) k e :
  m !! k = Some e → ¬ (resetTime e < w) → cleanup w m !! k = Some e.
Proof.
  intros Hk Hkeep. unfold cleanup.
  apply map_lookup_filter_Some. split; [done | exact Hkeep].
Qed.

Lemma cleanup_lookup_drop (w : Z) (m : gmap string Entry) k e :
  m !! k = Some e → resetTime e < w → cleanup w m !! k = None.
Proof.
  intros Hk Hdrop. unfold cleanup.
  apply map_lookup_filter_None. right. intros e' He' Hkeep.
  simpl in *. rewrite Hk in He'. injection He' as <-. lia.
Qed.

Lemma cleanup_lookup_None (w : Z) (m : gmap string Entry) k :
  m !! k = None → cleanup w m !! k = None.
Proof.
  intros Hk. unfold cleanup. apply map_lookup_filter_None. by left.
Qed.

(** The first observation of a key opens a window. *)
Lemma check_fresh now k lim w (m : gmap string Entry) :
  0 ≤ w → m !! k = None →
  check now k lim w m =
    (mkResult (bool_decide (1 ≤ lim)) lim (Z.max 0 (lim - 1)) (now + w),
     <[k := mkEntry 1 (now + w)]> (cleanup (now - w) m)).
Proof.
  intros Hw Hk. unfold check.
  rewrite (cleanup_lookup_None _ _ _ Hk). cbn [default resetTime count].
  rewrite (bool_decide_eq_false_2 (now > now + w)) by lia. reflexivity.
Qed.

(** An observation inside the window of the stored entry counts on. *)
Lemma check_within now k lim w (m : gmap string Entry) e :
  0 ≤ w → m !! k = Some e → now ≤ resetTime e →
  check now k lim w m =
    (mkResult (bool_decide (count e + 1 ≤ lim)) lim
              (Z.max 0 (lim - (count e + 1))) (resetTime e),
     <[k := mkEntry (count e + 1) (resetTime e)]> (cleanup (now - w) m)).
Proof.
  intros Hw Hk Hin. unfold check.
  rewrite (cleanup_lookup_keep _ _ _ _ Hk) by lia. cbn [default].
  rewrite (bool_decide_eq_false_2 (now > resetTime e)) by lia. reflexivity.
Qed.

(** An observation strictly after the stored reset time replaces the
    window, whether the sweep removed the entry or not. *)
Lemma check_expired now k lim w (m : gmap string Entry) e :
  m !! k = Some e → resetTime e < now →
  check now k lim w m =
    (mkResult (bool_decide (1 ≤ lim)) lim (Z.max 0 (lim - 1)) (now + w),
     <[k := mkEntry 1 (now + w)]> (cleanup (now - w) m)).
Proof.
  intros Hk Hout. unfold check.
  destruct (decide (resetTime e < now - w)) as [Hd | Hd].
  - rewrite (cleanup_lookup_drop _ _ _ _ Hk Hd). cbn [default resetTime].
    destruct (bool_decide (now > now + w)); reflexivity.
  - rewrite (cleanup_lookup_keep _ _ _ _ Hk Hd). cbn [default].
    rewrite (bool_decide_eq_true_2 (now > resetTime e)) by lia. reflexivity.
Qed.

Lemma window_results_length lim R c ts :
  length (window_results lim R c ts) = length ts.
Proof. revert c. induction ts as [| t ts IH]; intros c; simpl; [done | by rewrite IH]. Qed.

Lemma window_results_lookup lim R ts : ∀ c (i : nat) r,
  window_results lim R c ts !! i = Some r →
  r = mkResult (bool_decide (c + Z.of_nat i + 1 ≤ lim)) lim
               (Z.max 0 (lim - (c + Z.of_nat i + 1))) R.
Proof.
  induction ts as [| t ts IH]; intros c i r Hi; [done |].
  destruct i as [| i]; simpl in Hi.
  - injection Hi as <-. by replace (c + Z.of_nat 0 + 1) with (c + 1) by lia.
  - apply IH in Hi. subst r.
    by replace (c + 1 + Z.of_nat i + 1) with (c + Z.of_nat (S i) + 1) by lia.
Qed.

Lemma attempts_cons k lim w t ts (m : gmap string Entry) :
  (attempts k lim w (t :: ts) m).1 =
  (check t k lim w m).1 :: (attempts k lim w ts (check t k lim w m).2).1.
Proof.
  cbn [attempts]. destruct (check t k lim w m) as [r m1]. cbn [fst snd].
  destruct (attempts k lim w ts m1) as [rs m2]. reflexivity.
Qed.

Lemma attempts_within k lim w ts : ∀ (m : gmap string Entry) e,
  0 ≤ w → m !! k = Some e → Forall (λ t, t ≤ resetTime e) ts →
  (attempts k lim w ts m).1 = window_results lim (resetTime e) (count e) ts.
Proof.
  induction ts as [| t ts IH]; intros m e Hw Hk Hts; [done |].
  inversion Hts as [| t' ts' Ht Hts']; subst t' ts'.
  rewrite attempts_cons, (check_within _ _ _ _ _ _ Hw Hk Ht).
  cbn [fst snd window_results]. f_equal.
  by rewrite (IH _ (mkEntry (count e + 1) (resetTime e)) Hw
                (lookup_insert_eq _ _ _) Hts').
Qed.

(** A fresh key: the first attempt opens the window, the later ones
    count inside it. *)
Lemma attempts_fresh k lim w t0 ts (m : gmap string Entry) :
  0 ≤ w → m !! k = None → Forall (λ t, t ≤ t0 + w) ts →
  (attempts k lim w (t0 :: ts) m).1 = window_results lim (t0 + w) 0 (t0 :: ts).
Proof.
  intros Hw Hk Hts.
  rewrite attempts_cons, (check_fresh _ _ _ _ _ Hw Hk).
  cbn [fst snd window_results]. f_equal.
  by rewrite (attempts_within k lim w ts _ (mkEntry 1 (t0 + w)) Hw
                (lookup_insert_eq _ _ _) Hts).
Qed.

(** C2. For every limit >= 1 and every key without a counter, attempts
    on that key that all fall within the window opened by the first one
    are admitted for exactly the first [limit] of them and denied from
    attempt [limit + 1] on, each reporting
    [remaining = max 0 (limit - count)] and the reset time of that
    window; with the AUTH policy (limit 5, window 900000 ms) six attempts
    at one instant [t0] report remaining 4, 3, 2, 1, 0 and are admitted,
    and the sixth is denied with remaining 0 and reset [t0 + 900000]. *)
Theorem C2_window_admits_exactly_limit :
  (∀ k lim w t0 ts (m : gmap string Entry),
      1 ≤ lim → 0 ≤ w → m !! k = None → Forall (λ t, t ≤ t0 + w) ts →
      let rs := (attempts k lim w (t0 :: ts) m).1 in
      length rs = S (length ts) ∧
      ∀ (i : nat) r, rs !! i = Some r →
        (success r = true ↔ Z.of_nat i + 1 ≤ lim) ∧
        remaining r = Z.max 0 (lim - (Z.of_nat i + 1)) ∧
        reset r = t0 + w ∧ limit r = lim) ∧
  (∀ t0,
      (attempts "login:203.0.113.7" (policy_limit AUTH) (policy_windowMs AUTH)
                (replicate 6 t0) ∅).1 =
      [ mkResult true 5 4 (t0 + 900000); mkResult true 5 3 (t0 + 900000);
        mkResult true 5 2 (t0 + 900000); mkResult true 5 1 (t0 + 900000);
        mkResult true 5 0 (t0 + 900000); mkResult false 5 0 (t0 + 900000) ]).
Proof.
  split.
  - intros k lim w t0 ts m Hlim Hw Hk Hts rs. subst rs.
    rewrite (attempts_fresh _ _ _ _ _ _ Hw Hk Hts). split.
    + by rewrite window_results_length.
    + intros i r Hi. apply window_results_lookup in Hi. subst r. simpl.
      rewrite bool_decide_eq_true.
      replace (0 + Z.of_nat i + 1) with (Z.of_nat i + 1) by lia. done.
  - intros t0.
    change (replicate 6 t0) with (t0 :: replicate 5 t0).
    rewrite attempts_fresh; [reflexivity | done | done |].
    apply Forall_replicate. simpl. unfold policy_windowMs, AUTH. lia.
Qed.

Lemma C2_window_admits_exactly_limit_witness :
  let rs := (attempts "register:198.51.100.4" 3 300000 [1000; 1200; 301000; 5000]
                      (<["login:anonymous" := mkEntry 2 500]> ∅)).1 in
  length rs = 4%nat ∧
  ∀ (i : nat) r, rs !! i = Some r →
    (success r = true ↔ Z.of_nat i + 1 ≤ 3) ∧
    remaining r = Z.max 0 (3 - (Z.of_nat i + 1)) ∧
    reset r = 1000 + 300000 ∧ limit r = 3.
Proof.
  apply (proj1 C2_window_admits_exactly_limit
           "register:198.51.100.4" 3 300000 1000 [1200; 301000; 5000]
           (<["login:anonymous" := mkEntry 2 500]> ∅)).
  - lia.
  - lia.
  - reflexivity.
  - repeat constructor; lia.
Defined.

(** A check on another key leaves the counter of a key as it is, as
    long as the sweep of that check does not find it expired. *)
Theorem check_other_key_preserved :
  ∀ now k' lim' w' (m : gmap string Entry) k e,
    k' ≠ k → m !! k = Some e → now - w' ≤ resetTime e →
    (check now k' lim' w' m).2 !! k = Some e.
Proof.
  intros now k' lim' w' m k e Hne Hk Hlive. unfold check. cbn [snd].
  rewrite lookup_insert_ne by done.
  apply cleanup_lookup_keep; [done | lia].
Qed.

Lemma check_other_key_preserved_witness :
  let m : gmap string Entry := <["login:203.0.113.7" := mkEntry 5 1000]> ∅ in
  (check 900 "register:198.51.100.4" 5 900000 m).2 !! "login:203.0.113.7"
    = Some (mkEntry 5 1000).
Proof.
  intros m.
  apply (check_other_key_preserved 900 "register:198.51.100.4" 5 900000 m
           "login:203.0.113.7" (mkEntry 5 1000)).
  - discriminate.
  - reflexivity.
  - simpl. lia.
Defined.

(** C3, as the code has it.  The window of a stored counter is replaced
    exactly when the clock is strictly past its reset time
    ([now > resetTime]): the attempt then stores count 1 with reset
    [now + windowMs] and is admitted for every limit >= 1, however
    exhausted the old window was.  While [now <= resetTime], the reset
    instant included, the old window is kept and only counted on. *)
Theorem C3_window_replaced_strictly_after_reset :
  ∀ now k lim w (m : gmap string Entry) e,
    1 ≤ lim → 0 ≤ w → m !! k = Some e →
    (resetTime e < now →
       (check now k lim w m).2 !! k = Some (mkEntry 1 (now + w)) ∧
       (check now k lim w m).1 = mkResult true lim (lim - 1) (now + w)) ∧
    (now ≤ resetTime e →
       (check now k lim w m).2 !! k = Some (mkEntry (count e + 1) (resetTime e)) ∧
       (check now k lim w m).1 =
         mkResult (bool_decide (count e + 1 ≤ lim)) lim
                  (Z.max 0 (lim - (count e + 1))) (resetTime e)).
Proof.
  intros now k lim w m e Hlim Hw Hk. split.
  - intros Hout. rewrite (check_expired _ _ _ _ _ _ Hk Hout). cbn [fst snd].
    split; [apply lookup_insert_eq |].
    rewrite bool_decide_eq_true_2 by lia. f_equal. lia.
  - intros Hin. rewrite (check_within _ _ _ _ _ _ Hw Hk Hin). cbn [fst snd].
    split; [apply lookup_insert_eq | reflexivity].
Qed.

Lemma C3_window_replaced_strictly_after_reset_witness :
  let m : gmap string Entry := <["login:203.0.113.7" := mkEntry 5 1000]> ∅ in
  (check 1001 "login:203.0.113.7" 5 900000 m).2 !! "login:203.0.113.7"
    = Some (mkEntry 1 901001) ∧
  (check 1001 "login:203.0.113.7" 5 900000 m).1 = mkResult true 5 4 901001.
Proof.
  refine (proj1 (C3_window_replaced_strictly_after_reset
                   1001 "login:203.0.113.7" 5 900000
                   (<["login:203.0.113.7" := mkEntry 5 1000]> ∅)
                   (mkEntry 5 1000) _ _ _) _).
  - lia.
  - lia.
  - reflexivity.
  - simpl. lia.
Defined.

(** C3 as stated fails at the reset instant itself: with an exhausted
    counter whose [resetTime] equals [now], the window is not replaced
    and the attempt is denied. *)
Lemma C3_counterexample :
  let m : gmap string Entry := <["login:203.0.113.7" := mkEntry 5 1000]> ∅ in
  m !! "login:203.0.113.7" = Some (mkEntry 5 1000) ∧
  resetTime (mkEntry 5 1000) ≤ 1000 ∧
  check 1000 "login:203.0.113.7" 5 900000 m =
    (mkResult false 5 0 1000, <["login:203.0.113.7" := mkEntry 6 1000]> ∅).
Proof. vm_compute. repeat split; congruence. Qed.

End RateLimitFacts.

(** ** Properties of the formatter *)

Module ErrorsFacts.
Import Js Errors.

Lemma get_not_nullish v k : nullish v = false → ∃ x, get v k = Return x.
Proof.
  destruct v; simpl; try discriminate; intros _; eauto;
    case_bool_decide; eauto.
Qed.

Lemma strict_eq_num_true c n : strict_eq_num c n = true → c = JNum n.
Proof.
  destruct c; simpl; try discriminate. intros Hn%bool_decide_eq_true. by subst.
Qed.

(** Every value other than [null] and [undefined] that no test
    recognises gets the generic envelope, and its detail goes to the
    console only. *)
Lemma unrecognised_is_internal v :
  nullish v = false → unrecognised v →
  formatErrorResponse (Other v) =
    (Return internal_response, [mkLogLine "Unhandled error:" (Other v)]).
Proof.
  intros Hv [Hname Hcode]. unfold formatErrorResponse.
  destruct (get_not_nullish v "name" Hv) as [nm Hget]. rewrite Hget.
  destruct (strict_eq_str nm "ValidationError") eqn:Hnm.
  { exfalso. apply Hname. by exists nm. }
  destruct (get_not_nullish v "code" Hv) as [c Hc]. rewrite Hc.
  destruct (strict_eq_num c 11000) eqn:Hn; [| done].
  apply strict_eq_num_true in Hn. subst c. by destruct Hcode.
Qed.

(** The envelope of such a failure does not depend on the failure: two
    unrecognised failures, whatever their messages and stacks, are
    answered alike. *)
Theorem unrecognised_envelope_constant :
  ∀ v1 v2,
    nullish v1 = false → unrecognised v1 →
    nullish v2 = false → unrecognised v2 →
    (formatErrorResponse (Other v1)).1 = (formatErrorResponse (Other v2)).1 ∧
    (formatErrorResponse (Other v1)).1 = Return internal_response.
Proof.
  intros v1 v2 Hn1 Hu1 Hn2 Hu2. by rewrite !unrecognised_is_internal.
Qed.

Lemma unrecognised_envelope_constant_witness :
  let v1 := JObj [ ("name", JStr "MongoNetworkError");
                   ("message", JStr "connect ECONNREFUSED 10.0.3.17:27017") ] in
  let v2 := JStr "out of memory" in
  (formatErrorResponse (Other v1)).1 = (formatErrorResponse (Other v2)).1 ∧
  (formatErrorResponse (Other v1)).1 = Return internal_response.
Proof.
  intros v1 v2. apply (unrecognised_envelope_constant v1 v2).
  - reflexivity.
  - split; [| discriminate]. intros (nm & Hget & Hnm).
    injection Hget as <-. discriminate.
  - reflexivity.
  - split; [| discriminate]. intros (nm & Hget & Hnm).
    injection Hget as <-. discriminate.
Defined.

Lemma nullish_unrecognised v : nullish v = true → unrecognised v.
Proof.
  destruct v; try discriminate; intros _; (split; [| done]);
    intros (nm & Hget & _); discriminate.
Qed.

(** C1. An unrecognised failure other than [null] and [undefined] is
    answered with the fixed envelope INTERNAL_ERROR / 500 / "Internal
    server error", which holds nothing of the failure; the failure goes
    to the console.  For [undefined] and [null], values a [catch] clause
    can bind and no test recognises, the formatter reads a property of a
    nullish value: it throws a [TypeError] and returns no envelope. *)
Theorem C1_unrecognised_failure_formatting :
  (∀ v, unrecognised v → nullish v = false →
        formatErrorResponse (Other v) =
          (Return (mkErrorResponse "Internal server error" (Some "INTERNAL_ERROR") None 500),
           [mkLogLine "Unhandled error:" (Other v)]) ∧
        kind_of internal_response = Some INTERNAL) ∧
  unrecognised JUndefined ∧ unrecognised JNull ∧
  formatErrorResponse (Other JUndefined) = (ThrowTypeError, []) ∧
  formatErrorResponse (Other JNull) = (ThrowTypeError, []).
Proof.
  split; [| repeat split; by try apply nullish_unrecognised].
  intros v Hv Hn. split; [| reflexivity]. by apply unrecognised_is_internal.
Qed.

Lemma C1_unrecognised_failure_formatting_witness :
  let v := JObj [ ("name", JStr "MongoNetworkError");
                  ("message", JStr "connect ECONNREFUSED 10.0.3.17:27017");
                  ("stack", JStr "MongoNetworkError: connect ECONNREFUSED at Socket.emit") ] in
  formatErrorResponse (Other v) =
    (Return (mkErrorResponse "Internal server error" (Some "INTERNAL_ERROR") None 500),
     [mkLogLine "Unhandled error:" (Other v)]) ∧
  kind_of internal_response = Some INTERNAL.
Proof.
  intros v. apply (proj1 C1_unrecognised_failure_formatting v).
  - split; [| discriminate]. intros (nm & Hget & Hnm).
    injection Hget as <-. discriminate.
  - reflexivity.
Defined.

(** What the formatter does with a duplicate-key error, whatever its
    [keyPattern]. *)
Lemma duplicate_key_formatting v kp :
  duplicate_key_error v → get v "keyPattern" = Return kp →
  formatErrorResponse (Other v) =
    (ks ← keys kp;
     Return (mkErrorResponse (template_of_first ks +:+ " already exists")
               (Some "DUPLICATE_ERROR") None 409), []).
Proof.
  intros ((nm & Hname & Hnm) & Hcode) Hkp.
  unfold formatErrorResponse. rewrite Hname, Hnm, Hcode. simpl.
  by rewrite Hkp.
Qed.

Lemma keys_not_nullish v : nullish v = false → ∃ ks, keys v = Return ks.
Proof. destruct v; simpl; try discriminate; eauto. Qed.

(** C8, as the code has it.  A duplicate-key failure of the storage
    collaborator that carries its [keyPattern] is formatted with status
    409, the status of kind CONFLICT, and never as INTERNAL_ERROR / 500;
    its wire code is DUPLICATE_ERROR, which denotes no kind of the
    taxonomy.  Whatever the [keyPattern], an envelope the formatter
    returns for such a failure has that status and that code.  The
    [ConflictError] the routes raise themselves is the failure formatted
    with kind CONFLICT. *)
Theorem C8_duplicate_key_is_conflict :
  (∀ v kp,
      duplicate_key_error v → get v "keyPattern" = Return kp → nullish kp = false →
      ∃ ks r, keys kp = Return ks ∧
           formatErrorResponse (Other v) = (Return r, []) ∧
           r = mkErrorResponse (template_of_first ks +:+ " already exists")
                 (Some "DUPLICATE_ERROR") None 409 ∧
           resp_statusCode r = httpStatus CONFLICT ∧
           kind_of_status (resp_statusCode r) = Some CONFLICT ∧
           resp_statusCode r ≠ 500 ∧ resp_code r ≠ Some "INTERNAL_ERROR" ∧
           kind_of r ≠ Some INTERNAL ∧
           resp_code r = Some "DUPLICATE_ERROR" ∧ kind_of r = None) ∧
  (∀ v r,
      duplicate_key_error v →
      (formatErrorResponse (Other v)).1 = Return r →
      resp_statusCode r = 409 ∧ resp_code r = Some "DUPLICATE_ERROR" ∧
      resp_details r = None) ∧
  (∀ message,
      ∃ r, formatErrorResponse (new_ConflictError message) = (Return r, []) ∧
           r = mkErrorResponse (default "Resource already exists" message)
                 (Some "CONFLICT") None 409 ∧
           kind_of r = Some CONFLICT ∧ resp_statusCode r = httpStatus CONFLICT).
Proof.
  split; [| split].
  - intros v kp Hdup Hkp Hn.
    destruct (keys_not_nullish kp Hn) as [ks Hks]. exists ks. eexists.
    split; [exact Hks |]. split.
    + rewrite (duplicate_key_formatting v kp Hdup Hkp), Hks. reflexivity.
    + repeat split; done.
  - intros v r Hdup Hr.
    assert (nullish v = false) as Hv.
    { destruct Hdup as [_ Hcode]. by destruct v. }
    destruct (get_not_nullish v "keyPattern" Hv) as [kp Hkp].
    rewrite (duplicate_key_formatting v kp Hdup Hkp) in Hr. cbn [fst] in Hr.
    destruct (keys kp) as [ks |]; [| discriminate Hr].
    injection Hr as <-. done.
  - intros message. eexists. split; [reflexivity |]. repeat split; done.
Qed.

Lemma C8_duplicate_key_is_conflict_witness :
  let v := JObj [("name", JStr "MongoServerError");
                 ("message", JStr "E11000 duplicate key error collection: recruitpro.users index: email_1");
                 ("code", JNum 11000);
                 ("keyPattern", JObj [("email", JNum 1)]);
                 ("keyValue", JObj [("email", JStr "ada@example.com")])] in
  ∃ ks r, keys (JObj [("email", JNum 1)]) = Return ks ∧
       formatErrorResponse (Other v) = (Return r, []) ∧
       r = mkErrorResponse (template_of_first ks +:+ " already exists")
             (Some "DUPLICATE_ERROR") None 409 ∧
       resp_statusCode r = httpStatus CONFLICT ∧
       kind_of_status (resp_statusCode r) = Some CONFLICT ∧
       resp_statusCode r ≠ 500 ∧ resp_code r ≠ Some "INTERNAL_ERROR" ∧
       kind_of r ≠ Some INTERNAL ∧
       resp_code r = Some "DUPLICATE_ERROR" ∧ kind_of r = None.
Proof.
  intros v.
  apply (proj1 C8_duplicate_key_is_conflict v (JObj [("email", JNum 1)])).
  - split; [| reflexivity].
    exists (JStr "MongoServerError"). split; reflexivity.
  - reflexivity.
  - reflexivity.
Defined.

(** C8 as stated fails: the envelope of the driver's duplicate-key
    error carries the wire code DUPLICATE_ERROR, so its kind is not
    CONFLICT; and for a failure with code 11000 that lacks its
    [keyPattern] the formatter returns no envelope at all. *)
Lemma C8_counterexample :
  let v := JObj [("name", JStr "MongoServerError");
                 ("message", JStr "E11000 duplicate key error collection: recruitpro.users index: email_1");
                 ("code", JNum 11000);
                 ("keyPattern", JObj [("email", JNum 1)]);
                 ("keyValue", JObj [("email", JStr "ada@example.com")])] in
  let bare := JObj [("name", JStr "MongoServerError"); ("code", JNum 11000)] in
  let r := mkErrorResponse "email already exists" (Some "DUPLICATE_ERROR") None 409 in
  duplicate_key_error v ∧
  formatErrorResponse (Other v) = (Return r, []) ∧
  kind_of r ≠ Some CONFLICT ∧ resp_code r ≠ Some (wire_code CONFLICT) ∧
  duplicate_key_error bare ∧
  formatErrorResponse (Other bare) = (ThrowTypeError, []).
Proof.
  assert (∀ props, lookup_prop "name" props = JStr "MongoServerError" →
                   lookup_prop "code" props = JNum 11000 →
                   duplicate_key_error (JObj props)) as Hdup.
  { intros props Hname Hcode. split; [| by cbn; rewrite Hcode].
    exists (JStr "MongoServerError"). split; [by cbn; rewrite Hname | reflexivity]. }
  repeat split; try reflexivity; try discriminate; by apply Hdup.
Qed.

End ErrorsFacts.

(** ** Properties of the token service *)

Module AuthFacts.
Import Js Auth.

Section Service.
Context `{JwtLib} `{AuthConfig}.

Lemma verifyToken_cases token now :
  verifyToken token now =
    match jwt_verify token JWT_SECRET now with
    | Return claims => Return (Some claims)
    | Throw _ => Return None
    end.
Proof.
  unfold verifyToken, try_catch.
  by destruct (jwt_verify token JWT_SECRET now).
Qed.

Lemma jwt_verify_accepts token now claims :
  jws_decode token = Some (claims, hmac JWT_SECRET claims) →
  seconds now < exp claims →
  jwt_verify token JWT_SECRET now = Return claims.
Proof.
  intros Hdec Hexp. unfold jwt_verify. rewrite Hdec.
  rewrite bool_decide_eq_true_2 by done.
  by rewrite bool_decide_eq_true_2 by lia.
Qed.

Lemma jwt_verify_accepts_inv token now claims :
  jwt_verify token JWT_SECRET now = Return claims →
  jws_decode token = Some (claims, hmac JWT_SECRET claims) ∧
  seconds now < exp claims.
Proof.
  unfold jwt_verify. destruct (jws_decode token) as [[c s] |]; [| done].
  case_bool_decide as Hs; [| done]. case_bool_decide as He; [| done].
  intros [= <-]. subst s. split; [done | lia].
Qed.

(** C4. [verifyToken] never throws.  It returns the decoded payload
    when the signature verifies and the token is unexpired, and the one
    value [null] in every other case: an expired token with a valid
    signature and a token with a corrupted signature, which the library
    tells apart by what it throws, get the same answer. *)
Theorem C4_verifyToken_total_single_sentinel :
  (∀ token now, ∃ r, verifyToken token now = Return r) ∧
  (∀ token now claims,
      jws_decode token = Some (claims, hmac JWT_SECRET claims) →
      seconds now < exp claims →
      verifyToken token now = Return (Some claims)) ∧
  (∀ token now,
      ¬ (∃ claims, jws_decode token = Some (claims, hmac JWT_SECRET claims) ∧
                   seconds now < exp claims) →
      verifyToken token now = Return None) ∧
  (∀ expired tampered now c1 c2 s2,
      jws_decode expired = Some (c1, hmac JWT_SECRET c1) → exp c1 ≤ seconds now →
      jws_decode tampered = Some (c2, s2) → s2 ≠ hmac JWT_SECRET c2 →
      jwt_verify expired JWT_SECRET now = Throw (TokenExpiredError (exp c1)) ∧
      jwt_verify tampered JWT_SECRET now = Throw (JsonWebTokenError "invalid signature") ∧
      verifyToken expired now = Return None ∧
      verifyToken tampered now = Return None).
Proof.
  split; [| split; [| split]].
  - intros token now. rewrite verifyToken_cases.
    destruct (jwt_verify token JWT_SECRET now); eauto.
  - intros token now claims Hdec Hexp.
    by rewrite verifyToken_cases, (jwt_verify_accepts _ _ _ Hdec Hexp).
  - intros token now Hno. rewrite verifyToken_cases.
    destruct (jwt_verify token JWT_SECRET now) as [claims |] eqn:Hv; [| done].
    exfalso. apply Hno. exists claims. by apply jwt_verify_accepts_inv.
  - intros expired tampered now c1 c2 s2 Hd1 Hexp Hd2 Hsig.
    assert (jwt_verify expired JWT_SECRET now = Throw (TokenExpiredError (exp c1)))
      as He.
    { unfold jwt_verify. rewrite Hd1.
      rewrite bool_decide_eq_true_2 by done.
      by rewrite bool_decide_eq_false_2 by lia. }
    assert (jwt_verify tampered JWT_SECRET now
            = Throw (JsonWebTokenError "invalid signature")) as Ht.
    { unfold jwt_verify. rewrite Hd2.
      by rewrite bool_decide_eq_false_2 by done. }
    by rewrite !verifyToken_cases, He, Ht.
Qed.

Lemma substring_all s : String.substring 0 (String.length s) s = s.
Proof. induction s as [| c s IH]; simpl; [done | by rewrite IH]. Qed.

(** The token is taken from a [Bearer] authorization header when there
    is one, whatever the cookie holds; without an authorization header
    it is the non-empty value of the cookie, and without either there
    is none. *)
Theorem bearer_header_preferred :
  (∀ ip token cookie body,
      extractTokenFromRequest
        (mkRequest ip (Some ("Bearer " +:+ token)) cookie body) = Some token) ∧
  (∀ ip c value body,
      extractTokenFromRequest
        (mkRequest ip None (Some (String c value)) body) = Some (String c value)) ∧
  (∀ ip body, extractTokenFromRequest (mkRequest ip None None body) = None).
Proof.
  split; [| split]; [| done | done].
  intros ip token cookie body. unfold extractTokenFromRequest.
  cbn [authorization]. simpl. change ("" +:+ token) with token.
  rewrite Nat.sub_0_r, substring_all. by destruct token.
Qed.

(** C9. A token issued for a payload and verified with the same
    secret before it expires yields claims whose [userId], [email] and
    [role] are those of the payload. *)
Theorem C9_verify_generate_roundtrip `{!JwtLibLaws} :
  ∀ payload issued now,
    seconds now < seconds issued + JWT_EXPIRES_IN →
    ∃ claims,
      verifyToken (generateToken payload issued) now = Return (Some claims) ∧
      claims_payload claims = payload ∧
      userId (claims_payload claims) = userId payload ∧
      email (claims_payload claims) = email payload ∧
      role (claims_payload claims) = role payload ∧
      iat claims = seconds issued ∧
      exp claims = seconds issued + JWT_EXPIRES_IN.
Proof.
  intros payload issued now Hexp.
  set (claims := mkClaims payload (seconds issued) (seconds issued + JWT_EXPIRES_IN)).
  exists claims. split; [| done].
  rewrite verifyToken_cases. unfold generateToken, jwt_sign. fold claims.
  by rewrite (jwt_verify_accepts _ now claims (jws_decode_encode _ _) Hexp).
Qed.

End Service.

End AuthFacts.

(** ** The reference token library satisfies its law *)

Module ReferenceFacts.
Import Js Auth Reference.

Lemma dec_enc_str s rest : dec_str (enc_str s rest) = Some (s, rest).
Proof. induction s as [| c s IH]; simpl; [done | by rewrite IH]. Qed.

Lemma dec_enc_pos p rest : dec_pos (enc_pos p rest) = Some (p, rest).
Proof. induction p as [p IH | p IH |]; simpl; by rewrite ?IH. Qed.

Lemma dec_enc_Z z rest : dec_Z (enc_Z z rest) = Some (z, rest).
Proof. destruct z; simpl; by rewrite ?dec_enc_pos. Qed.

Lemma decode_encode c s : decode (encode c s) = Some (c, s).
Proof.
  destruct c as [[u e r] i x]. unfold decode, encode. simpl.
  rewrite !dec_enc_str. simpl. rewrite !dec_enc_str. simpl.
  rewrite !dec_enc_str. simpl. rewrite !dec_enc_Z. simpl.
  rewrite !dec_enc_Z. simpl. by rewrite !dec_enc_str.
Qed.

#[global] Instance jwt_laws : JwtLibLaws.
Proof. split. apply decode_encode. Qed.

Definition ada_claims : Claims :=
  mkClaims (mkTokenPayload "u0" "ada@example.com" "candidate") 5 604805.

Lemma C4_verifyToken_total_single_sentinel_witness :
  let expired := ada_token 5000 in
  let tampered := encode ada_claims "forged" in
  let now := 700000000 in
  jwt_verify expired JWT_SECRET now = Throw (TokenExpiredError 604805) ∧
  jwt_verify tampered JWT_SECRET now = Throw (JsonWebTokenError "invalid signature") ∧
  verifyToken expired now = Return None ∧
  verifyToken tampered now = Return None.
Proof.
  intros expired tampered now.
  refine (proj2 (proj2 (proj2 AuthFacts.C4_verifyToken_total_single_sentinel))
            expired tampered now ada_claims ada_claims "forged" _ _ _ _).
  - apply decode_encode.
  - vm_compute. discriminate.
  - apply decode_encode.
  - vm_compute. discriminate.
Defined.

Lemma C9_verify_generate_roundtrip_witness :
  let payload := mkTokenPayload "u0" "ada@example.com" "candidate" in
  ∃ claims,
    verifyToken (generateToken payload 5000) 86400000 = Return (Some claims) ∧
    claims_payload claims = payload ∧
    userId (claims_payload claims) = "u0" ∧
    email (claims_payload claims) = "ada@example.com" ∧
    role (claims_payload claims) = "candidate" ∧
    iat claims = seconds 5000 ∧
    exp claims = seconds 5000 + JWT_EXPIRES_IN.
Proof.
  intros payload.
  apply (AuthFacts.C9_verify_generate_roundtrip payload 5000 86400000).
  vm_compute. reflexivity.
Defined.

End ReferenceFacts.

(** ** Properties of validation *)

Module ValidationFacts.
Import Js Regex Zod Validation.

Lemma messages_at_app p a b :
  messages_at p (a ++ b) = messages_at p a ++ messages_at p b.
Proof. unfold messages_at. by rewrite filter_app, fmap_app. Qed.

Lemma messages_at_all p issues :
  Forall (λ i, String.concat "." (Zod.path i) = p) issues →
  messages_at p issues = issue_message <$> issues.
Proof.
  intros Hall. unfold messages_at. f_equal.
  induction Hall as [| i issues Hi _ IH]; [done |].
  rewrite filter_cons_True by done. by rewrite IH.
Qed.

Lemma messages_at_none p issues :
  Forall (λ i, String.concat "." (Zod.path i) ≠ p) issues →
  messages_at p issues = [].
Proof.
  intros Hall. unfold messages_at.
  induction Hall as [| i issues Hi _ IH]; [done |].
  rewrite filter_cons_False by done. by rewrite IH.
Qed.

(** The loop of the routes keeps, under each path, the messages of the
    issues at that path, in order. *)
Lemma foldl_push_issue_lookup issues : ∀ (acc : gmap string (list string)) p,
  foldl push_issue acc issues !! p =
    match messages_at p issues with
    | [] => acc !! p
    | ms => Some (default [] (acc !! p) ++ ms)
    end.
Proof.
  induction issues as [| i issues IH]; intros acc p; [done |].
  cbn [foldl]. rewrite IH. unfold messages_at.
  destruct (decide (String.concat "." (Zod.path i) = p)) as [Heq | Hne].
  - rewrite filter_cons_True by done. rewrite fmap_cons.
    unfold push_issue at 1 2. rewrite Heq, !lookup_insert_eq. cbn [default].
    destruct (issue_message <$> filter _ issues) as [| m ms] eqn:Hrest.
    + done.
    + unfold id. by rewrite <- app_assoc.
  - rewrite filter_cons_False by done.
    unfold push_issue at 1 2. by rewrite !lookup_insert_ne.
Qed.

Lemma collect_errors_lookup issues p :
  collect_errors issues !! p =
    match messages_at p issues with
    | [] => None
    | ms => Some ms
    end.
Proof.
  unfold collect_errors. rewrite foldl_push_issue_lookup.
  destruct (messages_at p issues); done.
Qed.

(** The issues of a string, of an enumeration and of a defaulted
    enumeration all sit at the path of the field. *)
Lemma run_checks_path p cks : ∀ data,
  Forall (λ i, Zod.path i = p) (run_checks p cks data).1.
Proof.
  induction cks as [| ck cks IH]; intros data; [constructor |].
  cbn [run_checks].
  destruct (run_check p ck data) as [is1 data1] eqn:H1.
  specialize (IH data1). destruct (run_checks p cks data1) as [is2 data2].
  cbn [fst] in *. apply Forall_app. split; [| done].
  destruct ck; cbn in H1; injection H1 as <- <-;
    repeat case_match; repeat constructor.
Qed.

Lemma parse_string_path p cks v :
  Forall (λ i, Zod.path i = p) (parse (ZString cks) p v).1.
Proof.
  cbn [parse]. destruct v; try (repeat constructor).
  pose proof (run_checks_path p cks s) as Hp.
  by destruct (run_checks p cks s).
Qed.

Lemma parse_enum_path p options v :
  Forall (λ i, Zod.path i = p) (parse (ZEnum options) p v).1.
Proof.
  cbn [parse]. destruct v; try (repeat constructor).
  case_bool_decide; repeat constructor.
Qed.

Lemma parse_default_enum_path p options d v :
  Forall (λ i, Zod.path i = p) (parse (ZDefault (ZEnum options) d) p v).1.
Proof.
  change (parse (ZDefault (ZEnum options) d) p v)
    with (match v with
          | JUndefined => parse (ZEnum options) p d
          | _ => parse (ZEnum options) p v
          end).
  destruct v; apply parse_enum_path.
Qed.

(** The issues of an object are those of its fields, in the order of
    the shape: no field stops the others. *)
Lemma parse_object_issues p props shape :
  (parse (ZObject shape) p (JObj props)).1 = object_issues p props shape.
Proof.
  induction shape as [| [k s] shape IH]; [done |].
  cbn [parse] in *. cbn [object_issues flat_map].
  destruct (parse s (p ++ [k]) (lookup_prop k props)) as [is1 y].
  match goal with
  | |- context [?f shape] =>
      lazymatch type of f with
      | list (string * Schema) → list Issue * list (string * JsValue) =>
          destruct (f shape) as [is2 ys]
      end
  end.
  cbn [fst] in *. f_equal. exact IH.
Qed.

Lemma messages_at_field k p issues :
  Forall (λ i, Zod.path i = [p]) issues →
  messages_at k issues = if decide (p = k) then issue_message <$> issues else [].
Proof.
  intros Hall. case_decide as Hk.
  - apply messages_at_all. eapply Forall_impl; [exact Hall |].
    intros i Hi. cbn beta in Hi. rewrite Hi. by subst.
  - apply messages_at_none. eapply Forall_impl; [exact Hall |].
    intros i Hi. cbn beta in Hi. rewrite Hi. done.
Qed.

(** The error mapping the routes build holds, under each path, exactly
    the messages of the issues at that path. *)
Lemma validate_errors_lookup schema body k :
  (validate schema body).1 !! k = entry_of (messages_at k (parse schema [] body).1).
Proof.
  unfold validate, safeParse.
  destruct (parse schema [] body) as [[| i issues] data]; [done |].
  cbn [fst]. rewrite collect_errors_lookup.
  by destruct (messages_at k (i :: issues)).
Qed.

Lemma validate_data schema body :
  (validate schema body).2 =
    match (parse schema [] body).1 with
    | [] => Some (parse schema [] body).2
    | _ => None
    end.
Proof.
  unfold validate, safeParse.
  by destruct (parse schema [] body) as [[| i issues] data].
Qed.

(** Every field of the registration schema reports all its issues,
    whatever the other fields hold. *)
Lemma register_field_errors props k s :
  (k, s) ∈ shape_of registerSchema →
  (validate registerSchema (JObj props)).1 !! k =
    entry_of (issue_message <$> (parse s [k] (lookup_prop k props)).1).
Proof.
  intros Hin. rewrite validate_errors_lookup. f_equal.
  unfold registerSchema at 1. rewrite parse_object_issues.
  cbn [object_issues flat_map]. rewrite !messages_at_app.
  rewrite (messages_at_field k "email") by apply parse_string_path.
  rewrite (messages_at_field k "password") by apply parse_string_path.
  rewrite (messages_at_field k "firstName") by apply parse_string_path.
  rewrite (messages_at_field k "lastName") by apply parse_string_path.
  rewrite (messages_at_field k "role") by apply parse_default_enum_path.
  cbn [shape_of registerSchema] in Hin.
  repeat (apply elem_of_cons in Hin as [[= -> ->] | Hin];
          [ repeat (case_decide; try done); by rewrite ?app_nil_r |]).
  by apply elem_of_nil in Hin.
Qed.

(** C6. Validation of a registration does not stop at a violation: the
    error mapping holds, under each field, the messages of all the checks
    that field fails, whatever the other fields hold; a password that is
    too short and misses a character class is reported with both
    messages, and so is the scenario of the specification. *)
Theorem C6_all_violations_reported :
  (∀ props k s,
      (k, s) ∈ shape_of registerSchema →
      (validate registerSchema (JObj props)).1 !! k =
        entry_of (issue_message <$> (parse s [k] (lookup_prop k props)).1)) ∧
  (∀ props pw,
      lookup_prop "password" props = JStr pw →
      str_length pw < 8 → Regex.test passwordRegex pw = false →
      (validate registerSchema (JObj props)).1 !! "password" =
        Some [msg_password_length; msg_password_classes] ∧
      (validate registerSchema (JObj props)).2 = None) ∧
  validate registerSchema (register_body "not-an-email" "abc" "" "D") =
    ({[ "email" := [msg_email_format];
        "password" := [msg_password_length; msg_password_classes];
        "firstName" := ["First name is required"] ]}, None).
Proof.
  split; [exact register_field_errors | split].
  - intros props pw Hpw Hlen Hre.
    assert ((parse (ZString [ CkMin 8 (Some msg_password_length);
                              CkRegex passwordRegex (Some msg_password_classes) ])
               ["password"] (lookup_prop "password" props)).1
            = [ mkIssue ["password"] msg_password_length;
                mkIssue ["password"] msg_password_classes ]) as Hissues.
    { rewrite Hpw. cbn [parse run_checks run_check].
      rewrite bool_decide_eq_true_2 by done. by rewrite Hre. }
    split.
    + rewrite (register_field_errors props "password"
                 (ZString [ CkMin 8 (Some msg_password_length);
                            CkRegex passwordRegex (Some msg_password_classes) ]))
        by (cbn [shape_of registerSchema]; do 2 constructor).
      by rewrite Hissues.
    + rewrite validate_data. unfold registerSchema at 1.
      rewrite parse_object_issues. cbn [object_issues flat_map].
      change ([] ++ ["password"]) with ["password"]. rewrite Hissues.
      by destruct (parse _ ([] ++ ["email"]) _).1.
  - vm_compute. reflexivity.
Qed.

Lemma C6_all_violations_reported_witness :
  let props := [ ("email", JStr "ada@example.com"); ("password", JStr "abc");
                 ("firstName", JStr "Ada"); ("lastName", JStr "Lovelace") ] in
  (validate registerSchema (JObj props)).1 !! "password" =
    Some [msg_password_length; msg_password_classes] ∧
  (validate registerSchema (JObj props)).2 = None.
Proof.
  intros props.
  apply (proj1 (proj2 C6_all_violations_reported) props "abc").
  - reflexivity.
  - vm_compute. reflexivity.
  - vm_compute. reflexivity.
Defined.

(** What validation makes of a registration body every rule accepts:
    no error, and a parsed value that holds the email and the password
    as they were given, the two names trimmed, and the role, [candidate]
    when none was given. *)
Lemma conformant_parsed props email password firstName lastName :
  conformant props email password firstName lastName →
  validate registerSchema (JObj props) =
    (∅, Some (JObj [ ("email", JStr email); ("password", JStr password);
                     ("firstName", JStr (trim firstName));
                     ("lastName", JStr (trim lastName));
                     ("role", JStr (role_of (lookup_prop "role" props))) ])).
Proof.
  intros [].
  unfold validate, safeParse, registerSchema. cbn [parse].
  rewrite conf_email0, conf_password0, conf_firstName0, conf_lastName0.
  cbn [run_checks run_check app].
  rewrite conf_email_format0, conf_password_classes0.
  rewrite (bool_decide_eq_false_2 (str_length email < 1)) by lia.
  rewrite (bool_decide_eq_false_2 (str_length password < 8)) by lia.
  rewrite (bool_decide_eq_false_2 (str_length firstName < 1)) by lia.
  rewrite (bool_decide_eq_false_2 (str_length firstName > 50)) by lia.
  rewrite (bool_decide_eq_false_2 (str_length lastName < 1)) by lia.
  rewrite (bool_decide_eq_false_2 (str_length lastName > 50)) by lia.
  cbn [app].
  destruct conf_role0 as [-> | [-> | ->]]; reflexivity.
Qed.

(** C7 as stated fails: the email with surrounding blanks is rejected,
    not normalised, and an accepted email keeps its upper-case
    letters. *)
Lemma C7_counterexample :
  validate registerSchema
    (register_body "  USER@Example.com " "Passw0rdX" "Ada" "Lovelace")
  = ({[ "email" := [msg_email_format] ]}, None) ∧
  validate registerSchema
    (register_body "USER@Example.com" "Passw0rdX" "Ada" "Lovelace")
  = (∅, Some (JObj [ ("email", JStr "USER@Example.com");
                     ("password", JStr "Passw0rdX");
                     ("firstName", JStr "Ada"); ("lastName", JStr "Lovelace");
                     ("role", JStr "candidate") ])).
Proof. split; vm_compute; reflexivity. Qed.

End ValidationFacts.
(** ** Properties of the user model and of the routes *)

Module PipelineFacts.
Import Js Errors Pipeline.

Lemma toObject_password doc :
  User.toObject doc !! "password" = Some (JStr (User.password doc)).
Proof.
  unfold User.toObject. cbn [app list_to_map foldr].
  by repeat (rewrite lookup_insert_ne by done); rewrite lookup_insert_eq.
Qed.

Lemma toJSON_password doc : User.toJSON doc !! "password" = None.
Proof. unfold User.toJSON, User.transform. apply lookup_delete_eq. Qed.

Lemma toJSON_other doc k :
  k ≠ "password" → User.toJSON doc !! k = User.toObject doc !! k.
Proof. intros Hk. unfold User.toJSON, User.transform. by apply lookup_delete_ne. Qed.

(** A further operation of the stage the route is in adds nothing to
    the trace; one of another stage enters that stage. *)
Lemma continue_stage_same s t : continue_stage s (t ++ [s]) = t ++ [s].
Proof.
  unfold continue_stage. rewrite last_snoc. by rewrite bool_decide_eq_true_2.
Qed.

Lemma continue_stage_other s s' t :
  s' ≠ s → continue_stage s (t ++ [s']) = (t ++ [s']) ++ [s].
Proof.
  intros Hne. unfold continue_stage. rewrite last_snoc.
  rewrite bool_decide_eq_false_2; [done |]. by intros [= ->].
Qed.



Section Routes.
Context `{JwtLib} `{AuthConfig} `{Storage}.

Lemma success_hides_password st message doc token hd ck :
  exposes_password
    (mkResponse st (BodySuccess message (User.toJSON doc) token) hd ck) = false.
Proof.
  unfold exposes_password. cbn [body]. rewrite toJSON_password.
  apply bool_decide_eq_false_2. by intros [? ?].
Qed.

Ltac step :=
  match goal with
  | |- context [match ?x with _ => _ end] =>
      lazymatch x with
      | context [match _ with _ => _ end] => fail
      | _ => destruct x eqn:?
      end
  end.

(** The trace, with the stages of its operations spelled out. *)
Ltac stages :=
  repeat first [ rewrite continue_stage_same
               | rewrite continue_stage_other by discriminate ];
  rewrite <- ?(assoc_L (++)); cbn [app].

Ltac finish :=
  unfold outcome_ok, stages_added; cbn [fst snd trace]; stages;
  split;
  [ eexists; split;
    [ reflexivity
    | repeat first [ apply list_elem_of_here | apply list_elem_of_further ] ]
  | intros ? Hret;
    repeat match goal with
           | c : Completion ErrorResponse |- _ => destruct c
           end;
    cbn in Hret; try discriminate Hret; injection Hret as <-;
    first [ reflexivity | apply success_hides_password ] ].

Opaque User.toJSON formatErrorResponse authenticateRequest RateLimit.check
       Validation.validate generateToken Validation.field.

Lemma profile_GET_outcome request now w :
  outcome_ok profile_GET_stages w (profile_GET request now w).
Proof.
  unfold profile_GET, route, format_error, profile_GET_try, authenticate.
  cbn. repeat (step; cbn); finish.
Qed.

Lemma profile_PUT_outcome request now w :
  outcome_ok profile_PUT_stages w (profile_PUT request now w).
Proof.
  unfold profile_PUT, route, format_error, profile_PUT_try, authenticate,
    request_json, parse_or_throw.
  cbn. repeat (step; cbn); finish.
Qed.

Lemma register_POST_outcome request now w :
  outcome_ok public_stages w (register_POST request now w).
Proof.
  unfold register_POST, route, format_error, register_try, rateLimiter_check,
    request_json, parse_or_throw.
  cbn. repeat (step; cbn); finish.
Qed.

Lemma login_POST_outcome request now w :
  outcome_ok public_stages w (login_POST request now w).
Proof.
  unfold login_POST, route, format_error, login_try, rateLimiter_check,
    request_json, parse_or_throw.
  cbn. repeat (step; cbn); finish.
Qed.

(** A denied rate check is answered at once with status 429, the
    reset instant and the rate-limit headers: the request is not
    parsed, and the store is not touched. *)
Theorem rate_limited_registration_short_circuits :
  ∀ request now w,
    let checked := RateLimit.check now ("register:" +:+ clientIP_of request)
                     (RateLimit.policy_limit RateLimit.AUTH)
                     (RateLimit.policy_windowMs RateLimit.AUTH) (limiter w) in
    RateLimit.success checked.1 = false →
    register_POST request now w =
      (Return (rate_limited_response "Too many registration attempts" checked.1),
       mkWorld checked.2 (db w) (console w) (trace w ++ [RATE_CHECK; FORMAT])).
Proof.
  intros request now w checked Hdenied. subst checked.
  unfold register_POST, route, register_try, rateLimiter_check.
  cbn. destruct (RateLimit.check _ _ _ _ _) as [r t]. cbn in *.
  rewrite Hdenied. cbn. stages. reflexivity.
Qed.

(** A registration body that fails validation is answered with status
    400 and the error mapping as details; the store is not touched. *)
Theorem invalid_registration_never_reaches_storage :
  ∀ request now w body errors,
    let checked := RateLimit.check now ("register:" +:+ clientIP_of request)
                     (RateLimit.policy_limit RateLimit.AUTH)
                     (RateLimit.policy_windowMs RateLimit.AUTH) (limiter w) in
    RateLimit.success checked.1 = true →
    json request = Some body →
    Validation.validate Validation.registerSchema body = (errors, None) →
    register_POST request now w =
      (Return (mkResponse 400
                 (BodyError (mkErrorResponse "Validation failed" (Some "VALIDATION_ERROR")
                               (Some ((λ msgs : list string, JStr <$> msgs) <$> errors))
                               400))
                 None None),
       mkWorld checked.2 (db w) (console w)
               (trace w ++ [RATE_CHECK; PARSE_VALIDATE; FORMAT])).
Proof.
  intros request now w body errors checked Hok Hjson Hval. subst checked.
  unfold register_POST, route, format_error, register_try, rateLimiter_check,
    request_json, parse_or_throw.
  cbn. destruct (RateLimit.check _ _ _ _ _) as [r t]. cbn in *.
  rewrite Hok, Hjson. cbn. rewrite Hval. cbn.
  with_strategy transparent [formatErrorResponse] cbn.
  stages. rewrite app_nil_r. reflexivity.
Qed.

(** C7, as the code has it.  A registration body every rule accepts
    validates with an empty error mapping and a parsed value that holds
    the email and the password as they were given -- the validator
    neither trims nor lower-cases the email -- the two names trimmed,
    and the role, [candidate] when none was given; and the registration
    route goes on with the parsed value: it looks the parsed email up
    and saves the parsed fields, the names trimmed and the role
    settled, not those of the body. *)
Theorem C7_conformant_input_parsed_value :
  ∀ props email password firstName lastName,
    Validation.conformant props email password firstName lastName →
    let role := Validation.role_of (lookup_prop "role" props) in
    let data := JObj [ ("email", JStr email); ("password", JStr password);
                       ("firstName", JStr (Zod.trim firstName));
                       ("lastName", JStr (Zod.trim lastName));
                       ("role", JStr role) ] in
    Validation.validate Validation.registerSchema (JObj props) = (∅, Some data) ∧
    Validation.field data "email" = email ∧
    Validation.field data "firstName" = Zod.trim firstName ∧
    Validation.field data "lastName" = Zod.trim lastName ∧
    ∀ request now w d1 d2 d3 user,
      let checked := RateLimit.check now ("register:" +:+ clientIP_of request)
                       (RateLimit.policy_limit RateLimit.AUTH)
                       (RateLimit.policy_windowMs RateLimit.AUTH) (limiter w) in
      let token := generateToken
                     (mkTokenPayload (User._id user) (User.email user) (User.role user))
                     now in
      RateLimit.success checked.1 = true →
      json request = Some (JObj props) →
      connectToDatabase (db w) = (Return (), d1) →
      User_findOne email d1 = (Return None, d2) →
      User_save (mkNewUser email password (Zod.trim firstName) (Zod.trim lastName) role)
        now d2 = (Return user, d3) →
      register_POST request now w =
        (Return (mkResponse 201
                   (BodySuccess "Registration successful" (User.toJSON user)
                      (Some token))
                   None (Some token)),
         mkWorld checked.2 d3 (console w)
                 (trace w ++ [RATE_CHECK; PARSE_VALIDATE; EXECUTE; FORMAT])).
Proof.
  intros props email password firstName lastName Hconf role data.
  pose proof (ValidationFacts.conformant_parsed _ _ _ _ _ Hconf) as Hval.
  fold role in Hval. fold data in Hval.
  split; [exact Hval |]. split; [done |]. split; [done |]. split; [done |].
  intros request now w d1 d2 d3 user checked token Hok Hjson Hconn Hfind Hsave.
  subst checked token.
  unfold register_POST, route, register_try, rateLimiter_check,
    request_json, parse_or_throw.
  cbn. destruct (RateLimit.check _ _ _ _ _) as [r t]. cbn in *.
  rewrite Hok, Hjson. cbn. rewrite Hval. cbn. rewrite Hconn. cbn.
  with_strategy transparent [Validation.field]
    (change (Validation.field data "email") with email;
     change (Validation.field data "password") with password;
     change (Validation.field data "firstName") with (Zod.trim firstName);
     change (Validation.field data "lastName") with (Zod.trim lastName);
     change (Validation.field data "role") with role).
  rewrite Hfind. cbn. rewrite Hsave. cbn. stages. reflexivity.
Qed.





Transparent User.toJSON formatErrorResponse authenticateRequest RateLimit.check
            Validation.validate generateToken Validation.field.

(** C10. The JSON form of a stored user has no [password], though the
    document holds one, and keeps every other field; so no success
    body of registration, login or the profile routes carries the
    stored hash. *)
Theorem C10_responses_hide_password :
  (∀ doc,
      User.toObject doc !! "password" = Some (JStr (User.password doc)) ∧
      User.toJSON doc !! "password" = None ∧
      ∀ k, k ≠ "password" → User.toJSON doc !! k = User.toObject doc !! k) ∧
  (∀ request now w r,
      (register_POST request now w).1 = Return r → exposes_password r = false) ∧
  (∀ request now w r,
      (login_POST request now w).1 = Return r → exposes_password r = false) ∧
  (∀ request now w r,
      (profile_GET request now w).1 = Return r → exposes_password r = false) ∧
  (∀ request now w r,
      (profile_PUT request now w).1 = Return r → exposes_password r = false).
Proof.
  split; [| repeat split].
  - intros doc. split; [apply toObject_password |].
    split; [apply toJSON_password | apply toJSON_other].
  - intros request now w. apply (register_POST_outcome request now w).
  - intros request now w. apply (login_POST_outcome request now w).
  - intros request now w. apply (profile_GET_outcome request now w).
  - intros request now w. apply (profile_PUT_outcome request now w).
Qed.

End Routes.

Import Reference.


Lemma rate_limited_registration_short_circuits_witness :
  let checked := RateLimit.check 5000 ("register:" +:+ clientIP_of register_request)
                   (RateLimit.policy_limit RateLimit.AUTH)
                   (RateLimit.policy_windowMs RateLimit.AUTH)
                   (limiter exhausted_world) in
  register_POST register_request 5000 exhausted_world =
    (Return (rate_limited_response "Too many registration attempts" checked.1),
     mkWorld checked.2 (db exhausted_world) (console exhausted_world)
             (trace exhausted_world ++ [RATE_CHECK; FORMAT])).
Proof.
  apply (rate_limited_registration_short_circuits register_request 5000 exhausted_world).
  vm_compute. reflexivity.
Defined.

Lemma invalid_registration_never_reaches_storage_witness :
  let checked := RateLimit.check 5000 ("register:" +:+ clientIP_of invalid_register_request)
                   (RateLimit.policy_limit RateLimit.AUTH)
                   (RateLimit.policy_windowMs RateLimit.AUTH)
                   (limiter empty_world) in
  let errors : gmap string (list string) :=
    {[ "email" := [Validation.msg_email_format];
       "password" := [Validation.msg_password_length; Validation.msg_password_classes];
       "firstName" := ["First name is required"] ]} in
  register_POST invalid_register_request 5000 empty_world =
    (Return (mkResponse 400
               (BodyError (mkErrorResponse "Validation failed" (Some "VALIDATION_ERROR")
                             (Some ((λ msgs : list string, JStr <$> msgs) <$> errors))
                             400))
               None None),
     mkWorld checked.2 (db empty_world) (console empty_world)
             (trace empty_world ++ [RATE_CHECK; PARSE_VALIDATE; FORMAT])).
Proof.
  apply (invalid_registration_never_reaches_storage invalid_register_request 5000
           empty_world (Validation.register_body "not-an-email" "abc" "" "D")).
  - vm_compute. reflexivity.
  - reflexivity.
  - vm_compute. reflexivity.
Defined.

Lemma C7_conformant_input_parsed_value_witness :
  let props := [ ("email", JStr "USER@Example.com"); ("password", JStr "Passw0rdX");
                 ("firstName", JStr "  Ada "); ("lastName", JStr "Lovelace") ] in
  let request := mkRequest (Some "203.0.113.7") None None (Some (JObj props)) in
  let user := User.mkUserDoc "u0" "USER@Example.com" (hashed "Passw0rdX") "Ada" "Lovelace"
                "candidate" "" None None [] None 5000 5000 in
  let token := generateToken (mkTokenPayload "u0" "USER@Example.com" "candidate") 5000 in
  let data := JObj [ ("email", JStr "USER@Example.com"); ("password", JStr "Passw0rdX");
                     ("firstName", JStr (Zod.trim "  Ada "));
                     ("lastName", JStr (Zod.trim "Lovelace"));
                     ("role", JStr "candidate") ] in
  Validation.validate Validation.registerSchema (JObj props) = (∅, Some data) ∧
  Validation.field data "email" = "USER@Example.com" ∧
  Validation.field data "firstName" = Zod.trim "  Ada " ∧
  Validation.field data "lastName" = Zod.trim "Lovelace" ∧
  register_POST request 5000 empty_world =
    (Return (mkResponse 201
               (BodySuccess "Registration successful" (User.toJSON user) (Some token))
               None (Some token)),
     mkWorld (RateLimit.check 5000 "register:203.0.113.7" 5 900000 ∅).2
             [user] [] [RATE_CHECK; PARSE_VALIDATE; EXECUTE; FORMAT]).
Proof.
  intros props request user token data.
  assert (Validation.conformant props "USER@Example.com" "Passw0rdX" "  Ada " "Lovelace")
    as Hconf.
  { split; try reflexivity; try (vm_compute; split; discriminate);
      try (vm_compute; discriminate).
    left. reflexivity. }
  destruct (C7_conformant_input_parsed_value props
              "USER@Example.com" "Passw0rdX" "  Ada " "Lovelace" Hconf)
    as (Hval & Hemail & Hfirst & Hlast & Hroute).
  split; [exact Hval |]. split; [exact Hemail |].
  split; [exact Hfirst |]. split; [exact Hlast |].
  apply (Hroute request 5000 empty_world [] [] [user] user); reflexivity.
Defined.

Lemma C10_responses_hide_password_witness :
  (register_POST register_request 5000 empty_world).1 = Return registration_response ∧
  User.toObject ada_registered !! "password" = Some (JStr "$2a$12$Passw0rdX") ∧
  exposes_password registration_response = false.
Proof.
  assert ((register_POST register_request 5000 empty_world).1
          = Return registration_response) as Hrun by (vm_compute; reflexivity).
  split; [exact Hrun |]. split; [vm_compute; reflexivity |].
  exact (proj1 (proj2 C10_responses_hide_password)
           register_request 5000 empty_world registration_response Hrun).
Defined.

End PipelineFacts.

(** ** More properties of the rate limiter *)

Module RateLimitRunsFacts.
Import RateLimit RateLimitRuns.

Lemma cleanup_lookup (w : Z) (m : gmap string Entry) k :
  cleanup w m !! k =
    match m !! k with
    | Some e => if bool_decide (resetTime e < w) then None else Some e
    | None => None
    end.
Proof.
  destruct (m !! k) as [e |] eqn:Hk.
  - case_bool_decide as Hd.
    + by apply (RateLimitFacts.cleanup_lookup_drop _ _ _ e).
    + by apply RateLimitFacts.cleanup_lookup_keep.
  - by apply RateLimitFacts.cleanup_lookup_None.
Qed.

(** What a check answers and stores for its key depends on the table
    only through the entry of that key. *)
Lemma check_by_entry now k lim w (m : gmap string Entry) :
  (check now k lim w m).1 = result_of lim (next_entry now w (m !! k)) ∧
  (check now k lim w m).2 !! k = Some (next_entry now w (m !! k)).
Proof.
  unfold check, next_entry, result_of. cbn [fst snd].
  rewrite lookup_insert_eq, cleanup_lookup.
  by destruct (m !! k) as [e |]; [case_bool_decide |].
Qed.

Lemma check_other now k' lim' w' (m : gmap string Entry) k :
  k' ≠ k →
  (check now k' lim' w' m).2 !! k =
    match m !! k with
    | Some e => if bool_decide (resetTime e < now - w') then None else Some e
    | None => None
    end.
Proof.
  intros Hne. unfold check. cbn [snd].
  rewrite lookup_insert_ne by done. apply cleanup_lookup.
Qed.

(** An entry that expired before the call is as good as none. *)
Lemma next_entry_expired now w e :
  resetTime e < now → next_entry now w (Some e) = next_entry now w None.
Proof.
  intros Hexp. unfold next_entry.
  destruct (bool_decide (resetTime e < now - w)); [reflexivity |].
  cbn [default].
  rewrite (bool_decide_eq_true_2 (now > resetTime e)) by lia.
  cbn [resetTime]. by destruct (bool_decide (now > now + w)).
Qed.

Lemma agree_upto_mono T T' k (m1 m2 : gmap string Entry) :
  T ≤ T' → agree_upto T k m1 m2 → agree_upto T' k m1 m2.
Proof.
  intros Hle [Heq | (Hnone & e & He & Hexp)]; [by left | right].
  split; [done |]. exists e. split; [done | lia].
Qed.

Lemma isolation_from T k calls : ∀ (m1 m2 : gmap string Entry),
  agree_upto T k m1 m2 →
  clock_advances T calls = true →
  results_on k calls m1 = (run (on_key k calls) m2).1.
Proof.
  revert T. induction calls as [| c calls IH]; intros T m1 m2 Hag Hclock; [done |].
  cbn [clock_advances] in Hclock.
  apply andb_true_iff in Hclock as [Hc Hrest].
  apply andb_true_iff in Hc as [Htime%bool_decide_eq_true Hwin%bool_decide_eq_true].
  cbn [results_on]. unfold on_key.
  destruct (call c m1) as [r1 m1'] eqn:Hcall1.
  case_bool_decide as Hkey.
  - rewrite filter_cons_True by done. cbn [run].
    destruct (call c m2) as [r2 m2'] eqn:Hcall2.
    unfold call in Hcall1, Hcall2. rewrite Hkey in Hcall1, Hcall2.
    destruct (check_by_entry (call_time c) k (call_limit c) (call_windowMs c) m1)
      as [Hr1 Hm1].
    destruct (check_by_entry (call_time c) k (call_limit c) (call_windowMs c) m2)
      as [Hr2 Hm2].
    rewrite Hcall1 in Hr1, Hm1. rewrite Hcall2 in Hr2, Hm2. cbn [fst snd] in *.
    assert (next_entry (call_time c) (call_windowMs c) (m1 !! k)
            = next_entry (call_time c) (call_windowMs c) (m2 !! k)) as Hsame.
    { destruct Hag as [-> | (-> & e & -> & Hexp)]; [done |].
      symmetry. apply next_entry_expired. lia. }
    specialize (IH (call_time c) m1' m2').
    fold (on_key k calls) in *.
    destruct (run (on_key k calls) m2') as [rs m2''] eqn:Hrun.
    cbn [fst] in *. rewrite Hr1, Hr2, Hsame. f_equal.
    apply IH; [| done]. left. by rewrite Hm1, Hm2, Hsame.
  - rewrite filter_cons_False by done. fold (on_key k calls).
    apply (IH (call_time c)); [| done].
    unfold call in Hcall1.
    pose proof (check_other (call_time c) (call_key c) (call_limit c)
                  (call_windowMs c) m1 k Hkey) as Hk.
    rewrite Hcall1 in Hk. cbn [snd] in Hk.
    destruct Hag as [Heq | (Hnone & e & He & Hexp)].
    + rewrite Heq in Hk. destruct (m2 !! k) as [e |] eqn:He; [| left; congruence].
      case_bool_decide as Hd; [| left; congruence].
      right. split; [done |]. exists e. split; [exact He | lia].
    + rewrite Hnone in Hk. right. split; [done |]. exists e. split; [done | lia].
Qed.

(** Keys do not interfere.  When the clock does not run backwards and no
    window is negative, the answers a run gives to the calls on one key
    are those the calls on that key alone would get: checks on other
    keys, and their sweeps, go unnoticed. *)
Theorem keys_do_not_interfere :
  ∀ calls k (m : gmap string Entry) start,
    clock_advances start calls = true →
    results_on k calls m = (run (on_key k calls) m).1.
Proof.
  intros calls k m start Hclock.
  apply (isolation_from start); [by left | done].
Qed.

Lemma keys_do_not_interfere_witness :
  let calls := [ mkCall 1000 "login:203.0.113.7" 5 900000;
                 mkCall 1500 "register:198.51.100.4" 3 300000;
                 mkCall 901500 "login:203.0.113.7" 5 900000;
                 mkCall 2000000 "register:198.51.100.4" 3 100;
                 mkCall 2000001 "login:203.0.113.7" 5 900000 ] in
  results_on "login:203.0.113.7" calls ∅
  = (run (on_key "login:203.0.113.7" calls) ∅).1.
Proof.
  intros calls.
  apply (keys_do_not_interfere calls "login:203.0.113.7" ∅ 0).
  vm_compute. reflexivity.
Defined.

(** After a check with a window that is not negative, the table holds no
    entry that expired before the start of that window, and apart from
    the checked key it holds only entries it held before, unchanged. *)
Theorem check_sweeps_expired_entries :
  ∀ now k lim w (m : gmap string Entry) k' e',
    0 ≤ w →
    (check now k lim w m).2 !! k' = Some e' →
    now - w ≤ resetTime e' ∧ (k' = k ∨ m !! k' = Some e').
Proof.
  intros now k lim w m k' e' Hw Hlook.
  destruct (decide (k = k')) as [<- | Hne].
  - split; [| by left].
    destruct (check_by_entry now k lim w m) as [_ Hk].
    rewrite Hk in Hlook. injection Hlook as <-.
    unfold next_entry.
    destruct (m !! k) as [e |];
      repeat (case_bool_decide; cbn [default resetTime count] in *);
      cbn [default resetTime count] in *; lia.
  - rewrite (check_other now k lim w m k' Hne) in Hlook.
    destruct (m !! k') as [e |]; [| done].
    case_bool_decide as Hd; [done |]. injection Hlook as <-.
    split; [lia | by right].
Qed.

Lemma check_sweeps_expired_entries_witness :
  let m : gmap string Entry :=
    <["login:203.0.113.7" := mkEntry 5 1000]>
      (<["register:198.51.100.4" := mkEntry 1 950000]> ∅) in
  1000000 - 900000 ≤ resetTime (mkEntry 1 950000) ∧
  ("register:198.51.100.4" = "login:192.0.2.1" ∨
   m !! "register:198.51.100.4" = Some (mkEntry 1 950000)).
Proof.
  intros m.
  apply (check_sweeps_expired_entries 1000000 "login:192.0.2.1" 5 900000 m
           "register:198.51.100.4" (mkEntry 1 950000)).
  - lia.
  - vm_compute. reflexivity.
Defined.

End RateLimitRunsFacts.

(** ** More properties of the formatter *)

Module StorageErrorsFacts.
Import Js Errors StorageErrors.

Lemma get_message_of item :
  nullish item = false → get item "message" = Return (message_of item).
Proof.
  intros Hn. unfold message_of.
  destruct (ErrorsFacts.get_not_nullish item "message" Hn) as [m ->]. done.
Qed.

Lemma for_each_entries fields ks : ∀ (acc : gmap string (list JsValue)),
  Forall (λ key, nullish (lookup_prop key fields) = false) ks →
  for_each ks
    (λ key errors,
       item ← get (JObj fields) key;
       msg ← get item "message";
       Return (<[key := [msg]]> errors)) acc
  = Return (foldl (λ acc key, <[key := [message_of (lookup_prop key fields)]]> acc) acc ks).
Proof.
  induction ks as [| k ks IH]; intros acc Hall; [done |].
  inversion Hall as [| k' ks' Hk Hks]; subst k' ks'.
  cbn [for_each foldl get]. cbn [mbind Result_bind].
  rewrite (get_message_of _ Hk). cbn [mbind Result_bind].
  by apply IH.
Qed.

Lemma foldl_insert_lookup {A} (f : string → A) ks : ∀ (acc : gmap string A) k,
  foldl (λ acc key, <[key := f key]> acc) acc ks !! k =
    if bool_decide (k ∈ ks) then Some (f k) else acc !! k.
Proof.
  induction ks as [| k' ks IH]; intros acc k; [done |].
  cbn [foldl]. rewrite IH.
  destruct (decide (k ∈ ks)) as [Hin | Hnin].
  - rewrite !bool_decide_eq_true_2; [done | by right | done].
  - rewrite (bool_decide_eq_false_2 (k ∈ ks)) by done.
    destruct (decide (k' = k)) as [-> | Hne].
    + rewrite lookup_insert_eq. rewrite bool_decide_eq_true_2; [done | by left].
    + rewrite lookup_insert_ne by done.
      rewrite bool_decide_eq_false_2; [done |].
      intros [-> | Hin]%elem_of_cons; done.
Qed.

(** A validation error of the storage collaborator is answered with
    status 400 and code VALIDATION_ERROR, and its details hold, under
    each field of [errors] and under no other key, the one message of
    that field.  Without an [errors] object the formatter throws. *)
Theorem storage_validation_error_details :
  (∀ v fields,
      validation_error_with v fields →
      formatErrorResponse (Other v) =
        (Return (mkErrorResponse "Validation failed" (Some "VALIDATION_ERROR")
                   (Some (details_of fields)) 400), []) ∧
      ∀ k, details_of fields !! k =
             if bool_decide (k ∈ fields.*1)
             then Some [message_of (lookup_prop k fields)] else None) ∧
  (∀ v, get v "name" = Return (JStr "ValidationError") →
        get v "errors" = Return JUndefined →
        formatErrorResponse (Other v) = (ThrowTypeError, [])).
Proof.
  split.
  - intros v fields (Hname & Herrors & Hall). split.
    + unfold formatErrorResponse. rewrite Hname. cbn [strict_eq_str].
      rewrite bool_decide_eq_true_2 by done. rewrite Herrors.
      cbn [mbind Result_bind keys].
      rewrite (for_each_entries fields _ ∅ Hall). done.
    + intros k. unfold details_of. by rewrite foldl_insert_lookup.
  - intros v Hname Herrors. unfold formatErrorResponse. rewrite Hname.
    cbn [strict_eq_str]. rewrite bool_decide_eq_true_2 by done.
    by rewrite Herrors.
Qed.

Lemma storage_validation_error_details_witness :
  let fields := [ ("email", JObj [ ("name", JStr "ValidatorError");
                                   ("message", JStr "Please enter a valid email");
                                   ("path", JStr "email") ]);
                  ("bio", JObj [ ("name", JStr "ValidatorError");
                                 ("message", JStr "Bio cannot exceed 500 characters");
                                 ("path", JStr "bio") ]) ] in
  let v := JObj [ ("name", JStr "ValidationError");
                  ("message", JStr "User validation failed");
                  ("errors", JObj fields) ] in
  formatErrorResponse (Other v) =
    (Return (mkErrorResponse "Validation failed" (Some "VALIDATION_ERROR")
               (Some (details_of fields)) 400), []) ∧
  ∀ k, details_of fields !! k =
         if bool_decide (k ∈ fields.*1)
         then Some [message_of (lookup_prop k fields)] else None.
Proof.
  intros fields v.
  apply (proj1 storage_validation_error_details v fields).
  split; [reflexivity |]. split; [reflexivity |].
  repeat constructor.
Defined.

End StorageErrorsFacts.

(** ** More properties of the token service *)

Module AuthRequestFacts.
Import Js Auth.

Section Service.
Context `{lib : JwtLib} `{cfg : AuthConfig}.

Lemma verifyToken_accepts_inv token now claims :
  verifyToken token now = Return (Some claims) →
  jws_decode token = Some (claims, hmac JWT_SECRET claims) ∧
  seconds now < exp claims.
Proof.
  rewrite AuthFacts.verifyToken_cases.
  destruct (jwt_verify token JWT_SECRET now) as [c |] eqn:Hv; [| done].
  intros [= <-]. by apply AuthFacts.jwt_verify_accepts_inv.
Qed.

(** [authenticateRequest] never throws, and it answers with claims only
    for a request that carries a non-empty token whose signature
    verifies under the secret and which has not expired. *)
Theorem authenticated_request_carries_valid_token :
  (∀ request now, ∃ r, authenticateRequest request now = Return r) ∧
  (∀ request now claims,
      authenticateRequest request now = Return (Some claims) →
      ∃ token,
        extractTokenFromRequest request = Some token ∧ token ≠ "" ∧
        jws_decode token = Some (claims, hmac JWT_SECRET claims) ∧
        seconds now < exp claims).
Proof.
  split.
  - intros request now. unfold authenticateRequest.
    destruct (extractTokenFromRequest request) as [[| c token] |]; eauto.
    rewrite AuthFacts.verifyToken_cases.
    destruct (jwt_verify _ _ _); eauto.
  - intros request now claims. unfold authenticateRequest.
    destruct (extractTokenFromRequest request) as [[| c token] |]; try done.
    intros Hv%verifyToken_accepts_inv. exists (String c token).
    split; [done |]. split; [done |]. exact Hv.
Qed.


Lemma extract_bearer ip token cookie body :
  extractTokenFromRequest (mkRequest ip (Some ("Bearer " +:+ token)) cookie body)
    = Some token.
Proof.
  unfold extractTokenFromRequest. cbn [authorization]. simpl.
  change ("" +:+ token) with token.
  rewrite Nat.sub_0_r, AuthFacts.substring_all. by destruct token.
Qed.

(** A token [generateToken] issued authenticates a request that
    carries it before it expires, as bearer token of the authorization
    header (whatever the cookie holds) and as the token cookie alike,
    and the claims the routes get are those of the payload. *)
Theorem issued_token_authenticates `{!JwtLibLaws} :
  ∀ payload issued now ip cookie body,
    generateToken payload issued ≠ "" →
    seconds now < seconds issued + JWT_EXPIRES_IN →
    let token := generateToken payload issued in
    let claims := mkClaims payload (seconds issued)
                    (seconds issued + JWT_EXPIRES_IN) in
    authenticateRequest (mkRequest ip (Some ("Bearer " +:+ token)) cookie body) now
      = Return (Some claims) ∧
    authenticateRequest (mkRequest ip None (Some token) body) now
      = Return (Some claims).
Proof.
  intros payload issued now ip cookie body Hne Hlive. cbv zeta.
  set (claims := mkClaims payload (seconds issued) (seconds issued + JWT_EXPIRES_IN)).
  assert (verifyToken (generateToken payload issued) now = Return (Some claims))
    as Hverify.
  { rewrite AuthFacts.verifyToken_cases.
    rewrite (AuthFacts.jwt_verify_accepts _ now claims); [done | | done].
    unfold generateToken, jwt_sign. apply jws_decode_encode. }
  revert Hne Hverify. generalize (generateToken payload issued).
  intros token Hne Hverify. split.
  - unfold authenticateRequest. rewrite extract_bearer. by destruct token.
  - unfold authenticateRequest, extractTokenFromRequest.
    cbn [authorization cookie_token]. by destruct token.
Qed.

End Service.

Import Reference.

Lemma issued_token_authenticates_witness :
  let payload := mkTokenPayload "u0" "ada@example.com" "candidate" in
  let token := generateToken payload 5000 in
  let claims := mkClaims payload (seconds 5000) (seconds 5000 + JWT_EXPIRES_IN) in
  authenticateRequest
    (mkRequest None (Some ("Bearer " +:+ token)) (Some "stale") None) 86400000
    = Return (Some claims) ∧
  authenticateRequest (mkRequest None None (Some token) None) 86400000
    = Return (Some claims).
Proof.
  intros payload.
  apply (issued_token_authenticates payload 5000 86400000 None (Some "stale") None).
  - vm_compute. discriminate.
  - vm_compute. reflexivity.
Defined.


Lemma authenticated_request_carries_valid_token_witness :
  ∃ token,
    extractTokenFromRequest (profile_get_request 5000) = Some token ∧ token ≠ "" ∧
    jws_decode token = Some (ReferenceFacts.ada_claims, hmac JWT_SECRET ReferenceFacts.ada_claims) ∧
    seconds 6000 < exp ReferenceFacts.ada_claims.
Proof.
  apply (proj2 authenticated_request_carries_valid_token (profile_get_request 5000) 6000).
  vm_compute. reflexivity.
Defined.

End AuthRequestFacts.

(** ** What the schemas accept *)

Module SchemaMeaningFacts.
Import Js Regex Zod Validation SchemaMeaning.

(** A star over one character class: it stops here, or takes a character
    of the class and goes on. *)
Lemma star_chr p k s b :
  matches (Star (Chr p)) b s k =
    k b s || match s with
             | c :: s' => p c && matches (Star (Chr p)) false s' k
             | [] => false
             end.
Proof.
  destruct s as [| c s']; [reflexivity |].
  cbn [matches length]. rewrite (proj2 (Nat.ltb_lt _ _)) by lia. reflexivity.
Qed.

Lemma matches_cat r1 r2 b s k :
  matches (Cat r1 r2) b s k = matches r1 b s (λ b' s', matches r2 b' s' k).
Proof. reflexivity. Qed.

Lemma matches_alt r1 r2 b s k :
  matches (Alt r1 r2) b s k = matches r1 b s k || matches r2 b s k.
Proof. reflexivity. Qed.

Lemma matches_eps b s k : matches Eps b s k = k b s.
Proof. reflexivity. Qed.

Lemma matches_chr_cons p b c s k :
  matches (Chr p) b (c :: s) k = p c && k false s.
Proof. reflexivity. Qed.

Lemma matches_look r b s k :
  matches (Look r) b s k = matches r b s (λ _ _, true) && k b s.
Proof. reflexivity. Qed.

Lemma star_dot_then p s b :
  matches (Cat (Star (Chr dot)) (Chr p)) b s (λ _ _, true) = first_line_has p s.
Proof.
  change (matches (Cat (Star (Chr dot)) (Chr p)) b s (λ _ _, true))
    with (matches (Star (Chr dot)) b s (λ b' s', matches (Chr p) b' s' (λ _ _, true))).
  revert b. induction s as [| c s IH]; intros b; rewrite star_chr.
  - reflexivity.
  - rewrite IH. cbn [matches first_line_has]. by rewrite andb_true_r.
Qed.

Lemma star_chr_eol p s b :
  matches (Star (Chr p)) b s (λ b' s', matches Eol b' s' (λ _ _, true)) = forallb p s.
Proof.
  revert b. induction s as [| c s IH]; intros b; rewrite star_chr.
  - reflexivity.
  - rewrite IH. reflexivity.
Qed.

Lemma existsb_false {A} (f : A → bool) l :
  Forall (λ x, f x = false) l → existsb f l = false.
Proof. induction 1 as [| x l Hx _ IH]; [done |]. cbn [existsb]. by rewrite Hx, IH. Qed.

(** A pattern that starts with [^] is tried at the start only. *)
Lemma test_bol r s :
  test (Cat Bol r) s = matches r true (list_ascii_of_string s) (λ _ _, true).
Proof.
  unfold test. cbn [seq existsb drop matches].
  rewrite bool_decide_eq_true_2 by done. cbn [andb].
  rewrite existsb_false; [apply orb_false_r |].
  apply Forall_forall. intros i Hi%elem_of_seq.
  rewrite bool_decide_eq_false_2 by lia. reflexivity.
Qed.

Lemma passwordRegex_test password :
  Regex.test passwordRegex password = three_classes password.
Proof.
  change passwordRegex
    with (Cat Bol (Cat (Look (Cat (Star (Chr dot)) (Chr lower)))
                    (Cat (Look (Cat (Star (Chr dot)) (Chr upper)))
                         (Look (Cat (Star (Chr dot)) (Chr digit)))))).
  rewrite test_bol. unfold three_classes.
  set (cs := list_ascii_of_string password).
  rewrite matches_cat, matches_look. cbn beta. rewrite star_dot_then.
  rewrite matches_cat, matches_look. cbn beta. rewrite star_dot_then.
  rewrite matches_look, star_dot_then.
  by rewrite andb_true_r, andb_assoc.
Qed.

Lemma plus_chr_eol p s b :
  matches (Cat (Plus (Chr p)) Eol) b s (λ _ _, true) = nonempty s && forallb p s.
Proof.
  unfold Plus. rewrite !matches_cat.
  destruct s as [| c s]; [reflexivity |].
  rewrite matches_chr_cons. cbn beta. by rewrite star_chr_eol.
Qed.

Lemma plus_not_phone_char c : lit "+" c = true → phone_char c = false.
Proof.
  unfold lit. intros Hc%N.eqb_eq.
  unfold phone_char, any_of, digit, space, between, lit. cbn [existsb].
  rewrite <- Hc. reflexivity.
Qed.

Lemma phoneRegex_test phone :
  Regex.test phoneRegex phone = phone_like phone.
Proof.
  change phoneRegex
    with (Cat Bol (Cat (Alt (Chr (lit "+")) Eps) (Cat (Plus (Chr phone_char)) Eol))).
  rewrite test_bol. unfold phone_like.
  destruct (list_ascii_of_string phone) as [| c cs]; [reflexivity |].
  rewrite matches_cat, matches_alt, matches_eps, matches_chr_cons. cbn beta.
  rewrite !plus_chr_eol.
  destruct (lit "+" c) eqn:Hplus.
  - cbn [andb nonempty forallb]. rewrite (plus_not_phone_char c Hplus).
    apply orb_false_r.
  - reflexivity.
Qed.

(** *** Helpers on validation *)

Lemma validate_data_none schema body :
  (parse schema [] body).1 ≠ [] → (validate schema body).2 = None.
Proof.
  intros Hne. rewrite ValidationFacts.validate_data.
  by destruct (parse schema [] body).1.
Qed.

Lemma lookup_prop_absent k props : k ∉ props.*1 → lookup_prop k props = JUndefined.
Proof.
  induction props as [| [k' v] props IH]; [done |].
  cbn [lookup_prop fmap list_fmap fst]. intros Hk.
  rewrite bool_decide_eq_false_2.
  - apply IH. intros Hin. apply Hk. by right.
  - intros ->. apply Hk. by left.
Qed.

(** The parsed value of an object whose fields are all optional holds
    only keys of the shape that the input holds too. *)
Lemma parse_optional_object_keys p props shape :
  Forall (λ ks, ∃ inner, ks.2 = ZOptional inner) shape →
  ∃ ys, (parse (ZObject shape) p (JObj props)).2 = JObj ys ∧
        ∀ k, k ∈ ys.*1 → k ∈ shape.*1 ∧ k ∈ props.*1.
Proof.
  induction 1 as [| [k s] shape [inner Hs] _ IH].
  - exists []. split; [done |]. intros k Hk. by apply elem_of_nil in Hk.
  - cbn [snd] in Hs. subst s. revert IH. cbn [parse].
    destruct (decide (k ∈ props.*1)) as [Hin | Hnin].
    + destruct (match lookup_prop k props with JUndefined => _ | _ => _ end)
        as [is1 y].
      match goal with
      | |- context [?f shape] =>
          lazymatch type of f with
          | list (string * Schema) → list Issue * list (string * JsValue) =>
              destruct (f shape) as [is2 ys']
          end
      end.
      cbn [snd]. intros (ys & [= <-] & Hkeys).
      eexists. split; [reflexivity |]. intros k' Hk'.
      destruct (is_undefined y && negb (bool_decide (k ∈ props.*1))).
      * destruct (Hkeys k' Hk') as [? ?]. split; [by right | done].
      * cbn [fmap list_fmap fst] in Hk'.
        apply elem_of_cons in Hk' as [-> | Hk'].
        -- split; [by left | done].
        -- destruct (Hkeys k' Hk') as [? ?]. split; [by right | done].
    + rewrite (lookup_prop_absent k props Hnin).
      match goal with
      | |- context [?f shape] =>
          lazymatch type of f with
          | list (string * Schema) → list Issue * list (string * JsValue) =>
              destruct (f shape) as [is2 ys']
          end
      end.
      cbn [snd is_undefined]. rewrite bool_decide_eq_false_2 by done.
      cbn [negb andb]. intros (ys & [= <-] & Hkeys).
      exists ys'. split; [reflexivity |]. intros k' Hk'.
      destruct (Hkeys k' Hk') as [? ?]. split; [by right | done].
Qed.

Lemma parse_object_only schema body :
  (∀ props, body ≠ JObj props) →
  validate (ZObject schema) body = ({[ "" := [invalid_type "object" body] ]}, None).
Proof. intros Hobj. destruct body; try reflexivity. by destruct (Hobj props). Qed.

Lemma collect_errors_nonempty i issues : collect_errors (i :: issues) ≠ ∅.
Proof.
  intros Hempty.
  pose proof (ValidationFacts.collect_errors_lookup (i :: issues)
                (String.concat "." (Zod.path i))) as Hl.
  rewrite Hempty, lookup_empty in Hl.
  unfold messages_at in Hl. rewrite filter_cons_True in Hl by done.
  by rewrite fmap_cons in Hl.
Qed.

Lemma trim_blank s :
  forallb space (list_ascii_of_string s) = true → trim s = "".
Proof.
  intros Hall. unfold trim.
  assert (trim_start (list_ascii_of_string s) = []) as ->; [| reflexivity].
  induction (list_ascii_of_string s) as [| c cs IH]; [done |].
  cbn [forallb] in Hall. apply andb_true_iff in Hall as [Hc Hcs].
  cbn [trim_start]. rewrite Hc. by apply IH.
Qed.

Lemma parse_optional_string_path p cks v :
  Forall (λ i, Zod.path i = p) (parse (ZOptional (ZString cks)) p v).1.
Proof.
  destruct v;
    match goal with
    | |- Forall _ (parse _ _ JUndefined).1 => apply Forall_nil_2
    | |- Forall _ (parse _ _ ?v).1 => exact (ValidationFacts.parse_string_path p cks v)
    end.
Qed.

(** The issues of the skills sit at [skills] or below it. *)
Lemma skills_issue_paths v :
  Forall (λ i, ∃ rest, Zod.path i = "skills" :: rest)
         (parse (ZOptional (ZArray (ZString [CkTrim]))) ["skills"] v).1.
Proof.
  destruct v as [| | b | n | s | items | props];
    try (cbn; repeat constructor; by eexists).
  cbn [parse].
  match goal with
  | |- context [?f 0%nat items] =>
      lazymatch type of f with
      | nat → list JsValue → list Issue * list JsValue =>
          assert (∀ i, Forall (λ i, ∃ rest, Zod.path i = "skills" :: rest) (f i items).1)
            as Hall
      end
  end.
  { induction items as [| x items IH]; intros i; [constructor |].
    cbn [parse] in *.
    specialize (IH (S i)).
    match goal with
    | |- context [?f (S i) items] =>
        lazymatch type of f with
        | nat → list JsValue → list Issue * list JsValue =>
            destruct (f (S i) items) as [is2 ys]
        end
    end.
    destruct x; cbn [fst app] in *; try done; constructor; try done; by eexists. }
  specialize (Hall 0%nat).
  match goal with
  | |- context [?f 0%nat items] =>
      lazymatch type of f with
      | nat → list JsValue → list Issue * list JsValue =>
          destruct (f 0%nat items) as [iss ys]
      end
  end.
  exact Hall.
Qed.

Lemma skills_issues_elsewhere v :
  messages_at "phone" (parse (ZOptional (ZArray (ZString [CkTrim]))) ["skills"] v).1 = [].
Proof.
  apply ValidationFacts.messages_at_none.
  eapply Forall_impl; [apply skills_issue_paths |].
  intros i [rest Hi]. cbn beta. rewrite Hi. by destruct rest.
Qed.

(** *** The properties *)

(** The password pattern asks that the first line of the password hold
    a lower-case letter, an upper-case letter and a digit; so a
    registration reports nothing under [password] exactly when the
    password has eight characters or more and its first line holds the
    three. *)
Theorem password_rule_meaning :
  (∀ password, Regex.test passwordRegex password = three_classes password) ∧
  (∀ props password,
      lookup_prop "password" props = JStr password →
      ((validate registerSchema (JObj props)).1 !! "password" = None ↔
       8 ≤ str_length password ∧ three_classes password = true)).
Proof.
  split; [exact passwordRegex_test |].
  intros props password Hpw.
  rewrite (ValidationFacts.register_field_errors props "password"
             (ZString [ CkMin 8 (Some msg_password_length);
                        CkRegex passwordRegex (Some msg_password_classes) ]))
    by (cbn [shape_of registerSchema]; do 2 constructor).
  rewrite Hpw. cbn [parse run_checks run_check].
  rewrite passwordRegex_test.
  case_bool_decide as Hlen; destruct (three_classes password);
    cbn; split; try done; try (intros [? ?]; done || lia); intros _; split; [lia | done].
Qed.

Lemma password_rule_meaning_witness :
  let props := [ ("email", JStr "ada@example.com"); ("password", JStr "Passw0rdX") ] in
  (validate registerSchema (JObj props)).1 !! "password" = None ↔
  8 ≤ str_length "Passw0rdX" ∧ three_classes "Passw0rdX" = true.
Proof.
  intros props. apply (proj2 password_rule_meaning props "Passw0rdX"). reflexivity.
Defined.

(** A registration reports nothing under [role] exactly when the role
    is left out or is one of [candidate] and [recruiter]; any other
    string is reported with the message that names it, and the
    registration is turned down. *)
Theorem role_outside_enum_rejected :
  (∀ props,
      (validate registerSchema (JObj props)).1 !! "role" = None ↔
      lookup_prop "role" props = JUndefined ∨
      lookup_prop "role" props = JStr "candidate" ∨
      lookup_prop "role" props = JStr "recruiter") ∧
  (∀ props r,
      lookup_prop "role" props = JStr r → r ≠ "candidate" → r ≠ "recruiter" →
      (validate registerSchema (JObj props)).1 !! "role" =
        Some ["Invalid enum value. Expected 'candidate' | 'recruiter', received '"
              +:+ r +:+ "'"] ∧
      (validate registerSchema (JObj props)).2 = None).
Proof.
  assert (∀ r, r ≠ "candidate" → r ≠ "recruiter" →
               bool_decide (r ∈ ["candidate"; "recruiter"]) = false) as Hout.
  { intros r H1 H2. apply bool_decide_eq_false_2.
    intros [-> | [-> | []%elem_of_nil]%elem_of_cons]%elem_of_cons; done. }
  split.
  - intros props.
    rewrite (ValidationFacts.register_field_errors props "role"
               (ZDefault (ZEnum ["candidate"; "recruiter"]) (JStr "candidate")))
      by (cbn [shape_of registerSchema]; do 5 constructor).
    destruct (lookup_prop "role" props) as [| | b | n | r | items | ps];
      try (cbn; split; [done | intros [? | [? | ?]]; done]).
    + cbn. split; [by left | done].
    + cbn [parse]. case_bool_decide as Hr.
      * cbn. split; [intros _ | done].
        apply elem_of_cons in Hr as [-> | [-> | []%elem_of_nil]%elem_of_cons];
          [by right; left | by right; right].
      * cbn. split; [done |].
        intros [? | [[= ->] | [= ->]]]; [done | |]; exfalso; apply Hr; set_solver.
  - intros props r Hrole H1 H2. split.
    + rewrite (ValidationFacts.register_field_errors props "role"
                 (ZDefault (ZEnum ["candidate"; "recruiter"]) (JStr "candidate")))
        by (cbn [shape_of registerSchema]; do 5 constructor).
      rewrite Hrole. cbn [parse]. rewrite (Hout r H1 H2). reflexivity.
    + apply validate_data_none. unfold registerSchema.
      rewrite ValidationFacts.parse_object_issues. cbn [object_issues flat_map].
      change ([] ++ ["role"]) with ["role"]. rewrite Hrole.
      cbn [parse]. rewrite (Hout r H1 H2). cbn [fst].
      intros Hnil. do 4 (apply app_eq_nil in Hnil as [_ Hnil]).
      apply app_eq_nil in Hnil as [Hnil _]. discriminate Hnil.
Qed.

Lemma role_outside_enum_rejected_witness :
  let props := [ ("email", JStr "ada@example.com"); ("password", JStr "Passw0rdX");
                 ("firstName", JStr "Ada"); ("lastName", JStr "Lovelace");
                 ("role", JStr "admin") ] in
  (validate registerSchema (JObj props)).1 !! "role" =
    Some ["Invalid enum value. Expected 'candidate' | 'recruiter', received '"
          +:+ "admin" +:+ "'"] ∧
  (validate registerSchema (JObj props)).2 = None.
Proof.
  intros props.
  apply (proj2 role_outside_enum_rejected props "admin"); [reflexivity | done | done].
Defined.

(** The names are measured before they are trimmed: a first name of
    white space only passes the check that it is not empty, and the
    parsed registration holds the empty first name. *)
Theorem blank_name_passes_required_check :
  ∀ props email password firstName lastName,
    conformant props email password firstName lastName →
    forallb space (list_ascii_of_string firstName) = true →
    ∃ data,
      validate registerSchema (JObj props) = (∅, Some data) ∧
      field data "firstName" = "" ∧
      field data "email" = email.
Proof.
  intros props email password firstName lastName Hconf Hblank.
  eexists. split; [by apply ValidationFacts.conformant_parsed |].
  cbn. by rewrite (trim_blank firstName Hblank).
Qed.

Lemma blank_name_passes_required_check_witness :
  let props := [ ("email", JStr "ada@example.com"); ("password", JStr "Passw0rdX");
                 ("firstName", JStr "   "); ("lastName", JStr "Lovelace") ] in
  ∃ data,
    validate registerSchema (JObj props) = (∅, Some data) ∧
    field data "firstName" = "" ∧
    field data "email" = "ada@example.com".
Proof.
  intros props.
  apply (blank_name_passes_required_check props
           "ada@example.com" "Passw0rdX" "   " "Lovelace").
  - split; try reflexivity; try (vm_compute; split; discriminate);
      try (vm_compute; discriminate).
    left. reflexivity.
  - reflexivity.
Defined.

(** The login schema asks of the password only that it is not empty: a
    body with a well-formed email and any non-empty password validates,
    and the parsed value holds the two as they were given and nothing
    else of the body. *)
Theorem login_accepts_any_nonempty_password :
  ∀ props email password,
    lookup_prop "email" props = JStr email →
    Regex.test emailRegex email = true →
    lookup_prop "password" props = JStr password →
    password ≠ "" →
    validate loginSchema (JObj props) =
      (∅, Some (JObj [ ("email", JStr email); ("password", JStr password) ])).
Proof.
  intros props email password Hemail Hformat Hpw Hne.
  unfold validate, safeParse, loginSchema. cbn [parse].
  rewrite Hemail, Hpw. cbn [run_checks run_check app]. rewrite Hformat.
  rewrite (bool_decide_eq_false_2 (str_length email < 1)).
  2:{ destruct email; [by vm_compute in Hformat |].
      unfold str_length. cbn [String.length]. lia. }
  rewrite (bool_decide_eq_false_2 (str_length password < 1)).
  2:{ destruct password; [done |]. unfold str_length. cbn [String.length]. lia. }
  reflexivity.
Qed.

Lemma login_accepts_any_nonempty_password_witness :
  let props := [ ("email", JStr "ada@example.com"); ("password", JStr "x");
                 ("role", JStr "admin") ] in
  validate loginSchema (JObj props) =
    (∅, Some (JObj [ ("email", JStr "ada@example.com"); ("password", JStr "x") ])).
Proof.
  intros props.
  apply (login_accepts_any_nonempty_password props "ada@example.com" "x");
    [reflexivity | vm_compute; reflexivity | reflexivity | done].
Defined.

(** Validation either yields the parsed data with an empty error
    mapping, or no data and a mapping with at least one entry; a body
    that is not an object is reported with one message under the empty
    path. *)
Theorem validation_failure_always_explains :
  (∀ schema body,
      ((validate schema body).2 = None ↔ (validate schema body).1 ≠ ∅)) ∧
  (∀ shape body,
      (∀ props, body ≠ JObj props) →
      validate (ZObject shape) body =
        ({[ "" := [invalid_type "object" body] ]}, None)).
Proof.
  split; [| exact parse_object_only].
  intros schema body. unfold validate, safeParse.
  destruct (parse schema [] body) as [[| i issues] data]; cbn [fst snd].
  - split; [done | intros Hne; by destruct Hne].
  - split; [intros _; apply collect_errors_nonempty | done].
Qed.

(** The phone pattern accepts one or more digits, white space, hyphens
    and parentheses after at most one plus sign; a profile update
    reports a phone number that is not of this form with the one message
    of the schema, and nothing under [phone] when it is. *)
Theorem phone_rule_meaning :
  (∀ phone, Regex.test phoneRegex phone = phone_like phone) ∧
  (∀ props phone,
      lookup_prop "phone" props = JStr phone →
      (validate updateProfileSchema (JObj props)).1 !! "phone" =
        if phone_like phone then None else Some ["Invalid phone number"]).
Proof.
  split; [exact phoneRegex_test |].
  intros props phone Hphone.
  rewrite ValidationFacts.validate_errors_lookup. unfold updateProfileSchema.
  rewrite ValidationFacts.parse_object_issues. cbn [object_issues flat_map].
  rewrite !ValidationFacts.messages_at_app.
  change ([] ++ ["skills"]) with ["skills"]. rewrite skills_issues_elsewhere.
  rewrite (ValidationFacts.messages_at_field "phone" "firstName")
    by apply parse_optional_string_path.
  rewrite (ValidationFacts.messages_at_field "phone" "lastName")
    by apply parse_optional_string_path.
  rewrite (ValidationFacts.messages_at_field "phone" "phone")
    by apply parse_optional_string_path.
  rewrite (ValidationFacts.messages_at_field "phone" "bio")
    by apply parse_optional_string_path.
  rewrite (ValidationFacts.messages_at_field "phone" "experience")
    by apply parse_optional_string_path.
  repeat (case_decide; try done). cbn [app]. rewrite app_nil_r.
  change ([] ++ ["phone"]) with ["phone"]. rewrite Hphone.
  cbn [parse run_checks run_check]. rewrite phoneRegex_test.
  by destruct (phone_like phone).
Qed.

Lemma phone_rule_meaning_witness :
  let props := [ ("phone", JStr "+") ] in
  (validate updateProfileSchema (JObj props)).1 !! "phone" =
    if phone_like "+" then None else Some ["Invalid phone number"].
Proof.
  intros props. apply (proj2 phone_rule_meaning props "+"). reflexivity.
Defined.

(** The parsed data of a profile update holds only fields of the
    schema that the request names, so the update handed to the store,
    which adds [updatedAt], sets no other field -- not the email, the
    password or the role. *)
Theorem profile_update_touches_only_named_fields :
  ∀ body data now,
    (validate updateProfileSchema body).2 = Some data →
    ∃ props ys,
      body = JObj props ∧ data = JObj ys ∧
      (∀ k, k ∈ ys.*1 → k ∈ profile_fields ∧ k ∈ props.*1) ∧
      Pipeline.with_updatedAt data now = JObj (ys ++ [("updatedAt", JNum now)]) ∧
      (∀ k, k ∉ profile_fields → k ≠ "updatedAt" →
            get (Pipeline.with_updatedAt data now) k = Return JUndefined).
Proof.
  intros body data now Hdata.
  destruct body as [| | b | n | s | items | props];
    try (unfold updateProfileSchema in Hdata;
         rewrite parse_object_only in Hdata by (intros ? [=]);
         discriminate Hdata).
  rewrite ValidationFacts.validate_data in Hdata.
  destruct (parse_optional_object_keys [] props (shape_of updateProfileSchema))
    as (ys & Hys & Hkeys).
  { repeat (constructor; [by eexists |]). constructor. }
  change (ZObject (shape_of updateProfileSchema)) with updateProfileSchema in Hys.
  destruct (parse updateProfileSchema [] (JObj props)).1; [| done].
  apply (inj Some) in Hdata. subst data. rewrite Hys.
  exists props, ys. repeat split; try done; try by apply Hkeys.
  intros k Hk Hup. cbn [Pipeline.with_updatedAt get]. f_equal.
  apply lookup_prop_absent. rewrite fmap_app.
  intros [Hin | Hin]%elem_of_app.
  - by apply Hk, Hkeys.
  - cbn in Hin. apply list_elem_of_singleton in Hin. done.
Qed.

Lemma profile_update_touches_only_named_fields_witness :
  let body := JObj [ ("bio", JStr "Analyst"); ("role", JStr "admin");
                     ("password", JStr "x") ] in
  ∃ props ys,
    body = JObj props ∧ JObj [("bio", JStr "Analyst")] = JObj ys ∧
    (∀ k, k ∈ ys.*1 → k ∈ profile_fields ∧ k ∈ props.*1) ∧
    Pipeline.with_updatedAt (JObj [("bio", JStr "Analyst")]) 6000
      = JObj (ys ++ [("updatedAt", JNum 6000)]) ∧
    (∀ k, k ∉ profile_fields → k ≠ "updatedAt" →
          get (Pipeline.with_updatedAt (JObj [("bio", JStr "Analyst")]) 6000) k
            = Return JUndefined).
Proof.
  intros body.
  apply (profile_update_touches_only_named_fields body (JObj [("bio", JStr "Analyst")]) 6000).
  vm_compute. reflexivity.
Defined.

End SchemaMeaningFacts.

(** ** More properties of the routes *)

Module RouteRunsFacts.
Import Js Errors Pipeline RouteRuns.

Section Routes.
Context `{lib : JwtLib} `{cfg : AuthConfig} `{sto : Storage}.

Ltac step :=
  match goal with
  | |- context [match ?x with _ => _ end] =>
      lazymatch x with
      | context [match _ with _ => _ end] => fail
      | _ => destruct x eqn:?
      end
  end.

Ltac stages :=
  repeat first [ rewrite PipelineFacts.continue_stage_same
               | rewrite PipelineFacts.continue_stage_other by discriminate ];
  rewrite <- ?(assoc_L (++)); cbn [app].

(** A response of a formatted failure has no success body. *)
Ltac no_success Hr :=
  repeat match goal with
         | c : Completion ErrorResponse |- _ => destruct c
         end;
  cbn in Hr; try discriminate Hr; injection Hr as <-; cbn; discriminate.

Opaque User.toJSON formatErrorResponse authenticateRequest RateLimit.check
       Validation.validate generateToken Validation.field.

(** *** The profile routes without a token *)

(** A request for which [authenticateRequest] finds no valid token
    is answered by both profile routes with status 401 and the one
    message; its body is not read and the store is not touched. *)
Theorem unauthenticated_profile_untouched :
  ∀ request now w,
    authenticateRequest request now = Return None →
    (profile_GET request now w).1 = Return token_required_response ∧
    db (profile_GET request now w).2 = db w ∧
    stages_added w (profile_GET request now w).2 [AUTHENTICATE; FORMAT] ∧
    (profile_PUT request now w).1 = Return token_required_response ∧
    db (profile_PUT request now w).2 = db w ∧
    stages_added w (profile_PUT request now w).2 [AUTHENTICATE; FORMAT].
Proof.
  intros request now w Hauth.
  unfold profile_GET, profile_PUT, route, format_error, profile_GET_try,
    profile_PUT_try, authenticate, stages_added.
  cbn. rewrite Hauth. cbn.
  with_strategy transparent [formatErrorResponse] cbn.
  stages. rewrite ?app_nil_r. done.
Qed.

(** *** Login *)

(** The login route answers an unknown email and a wrong password
    alike: the same status 401, the same body, the same stages. *)
Theorem login_failures_indistinguishable :
  ∀ request now w body errors data d1 d2,
    let checked := RateLimit.check now ("login:" +:+ clientIP_of request)
                     (RateLimit.policy_limit RateLimit.AUTH)
                     (RateLimit.policy_windowMs RateLimit.AUTH) (limiter w) in
    RateLimit.success checked.1 = true →
    json request = Some body →
    Validation.validate Validation.loginSchema body = (errors, Some data) →
    connectToDatabase (db w) = (Return (), d1) →
    (User_findOne (Validation.field data "email") d1 = (Return None, d2) ∨
     ∃ user,
       User_findOne (Validation.field data "email") d1 = (Return (Some user), d2) ∧
       comparePassword user (Validation.field data "password") = Return false) →
    login_POST request now w =
      (Return invalid_credentials_response,
       mkWorld checked.2 d2 (console w)
               (trace w ++ [RATE_CHECK; PARSE_VALIDATE; EXECUTE; FORMAT])).
Proof.
  intros request now w body errors data d1 d2 checked Hok Hjson Hval Hconn Hfind.
  subst checked.
  unfold login_POST, route, format_error, login_try, rateLimiter_check,
    request_json, parse_or_throw.
  cbn. destruct (RateLimit.check _ _ _ _ _) as [r t]. cbn in *.
  rewrite Hok, Hjson. cbn. rewrite Hval. cbn. rewrite Hconn. cbn.
  destruct Hfind as [Hnone | (user & Hsome & Hcmp)].
  - rewrite Hnone. cbn. with_strategy transparent [formatErrorResponse] cbn.
    stages. rewrite app_nil_r. reflexivity.
  - rewrite Hsome. cbn. rewrite Hcmp. cbn.
    with_strategy transparent [formatErrorResponse] cbn.
    stages. rewrite app_nil_r. reflexivity.
Qed.

(** A login is answered with a success body only when the body
    validated, the store found a user under the parsed email and
    [comparePassword] accepted the parsed password; the token of the
    body is then the one set as cookie, signed for that user. *)
Theorem login_success_requires_matching_password :
  ∀ request now w r message user_json token,
    (login_POST request now w).1 = Return r →
    body r = BodySuccess message user_json token →
    ∃ body errors data d1 d2 user,
      json request = Some body ∧
      Validation.validate Validation.loginSchema body = (errors, Some data) ∧
      connectToDatabase (db w) = (Return (), d1) ∧
      User_findOne (Validation.field data "email") d1 = (Return (Some user), d2) ∧
      comparePassword user (Validation.field data "password") = Return true ∧
      r = mkResponse 200
            (BodySuccess "Login successful" (User.toJSON user)
               (Some (generateToken (payload_of user) now)))
            None (Some (generateToken (payload_of user) now)).
Proof.
  intros request now w r message user_json token.
  unfold login_POST, route, format_error, login_try, rateLimiter_check,
    request_json, parse_or_throw.
  cbn. repeat (step; cbn);
    try (intros [= <-]; cbn; discriminate);
    try (intros Hr; no_success Hr).
  intros [= <-] _.
  repeat match goal with
         | u : unit |- _ => destruct u
         | b : bool |- _ => destruct b; try discriminate
         end.
  do 6 eexists. repeat split; try eassumption.
Qed.

(** *** Registration *)

(** A registration whose email the store already holds is answered
    with status 409 and code CONFLICT; nothing is saved: the store is
    left as the lookup left it. *)
Theorem duplicate_registration_conflict :
  ∀ request now w body errors data d1 d2 existing,
    let checked := RateLimit.check now ("register:" +:+ clientIP_of request)
                     (RateLimit.policy_limit RateLimit.AUTH)
                     (RateLimit.policy_windowMs RateLimit.AUTH) (limiter w) in
    RateLimit.success checked.1 = true →
    json request = Some body →
    Validation.validate Validation.registerSchema body = (errors, Some data) →
    connectToDatabase (db w) = (Return (), d1) →
    User_findOne (Validation.field data "email") d1 = (Return (Some existing), d2) →
    register_POST request now w =
      (Return (mkResponse 409
                 (BodyError (mkErrorResponse "User with this email already exists"
                               (Some "CONFLICT") None 409))
                 None None),
       mkWorld checked.2 d2 (console w)
               (trace w ++ [RATE_CHECK; PARSE_VALIDATE; EXECUTE; FORMAT])).
Proof.
  intros request now w body errors data d1 d2 existing checked
    Hok Hjson Hval Hconn Hfind.
  subst checked.
  unfold register_POST, route, format_error, register_try, rateLimiter_check,
    request_json, parse_or_throw.
  cbn. destruct (RateLimit.check _ _ _ _ _) as [r t]. cbn in *.
  rewrite Hok, Hjson. cbn. rewrite Hval. cbn. rewrite Hconn. cbn.
  rewrite Hfind. cbn. with_strategy transparent [formatErrorResponse] cbn.
  stages. rewrite app_nil_r. reflexivity.
Qed.

(** *** The profile routes with a token *)

(** A profile route answers with a success body only for a request
    that authenticates, and the user of the body is the one the store
    holds under the [userId] of the token: the read looks up that id,
    the update is applied to that id. *)
Theorem profile_success_is_for_token_owner :
  (∀ request now w r message user_json token,
      (profile_GET request now w).1 = Return r →
      body r = BodySuccess message user_json token →
      ∃ claims d1 d2 user,
        authenticateRequest request now = Return (Some claims) ∧
        connectToDatabase (db w) = (Return (), d1) ∧
        User_findById (userId (claims_payload claims)) d1
          = (Return (Some user), d2) ∧
        r = mkResponse 200
              (BodySuccess "Profile retrieved successfully" (User.toJSON user) None)
              None None) ∧
  (∀ request now w r message user_json token,
      (profile_PUT request now w).1 = Return r →
      body r = BodySuccess message user_json token →
      ∃ claims payload errors data d1 d2 user,
        authenticateRequest request now = Return (Some claims) ∧
        json request = Some payload ∧
        Validation.validate Validation.updateProfileSchema payload
          = (errors, Some data) ∧
        connectToDatabase (db w) = (Return (), d1) ∧
        User_findByIdAndUpdate (userId (claims_payload claims))
          (with_updatedAt data now) d1 = (Return (Some user), d2) ∧
        r = mkResponse 200
              (BodySuccess "Profile updated successfully" (User.toJSON user) None)
              None None).
Proof.
  split.
  - intros request now w r message user_json token.
    unfold profile_GET, route, format_error, profile_GET_try, authenticate.
    cbn. repeat (step; cbn); try (intros Hr; no_success Hr).
    intros [= <-] _.
    repeat match goal with u : unit |- _ => destruct u end.
    do 4 eexists. repeat split; eassumption.
  - intros request now w r message user_json token.
    unfold profile_PUT, route, format_error, profile_PUT_try, authenticate,
      request_json, parse_or_throw.
    cbn. repeat (step; cbn); try (intros Hr; no_success Hr).
    intros [= <-] _.
    repeat match goal with u : unit |- _ => destruct u end.
    do 7 eexists. repeat split; eassumption.
Qed.

(** *** Login and the rate limiter *)

Lemma login_POST_limiter request now w :
  limiter (login_POST request now w).2 =
    (RateLimit.check now ("login:" +:+ clientIP_of request)
       (RateLimit.policy_limit RateLimit.AUTH)
       (RateLimit.policy_windowMs RateLimit.AUTH) (limiter w)).2.
Proof.
  unfold login_POST, route, format_error, login_try, rateLimiter_check,
    request_json, parse_or_throw.
  cbn. repeat (step; cbn); reflexivity.
Qed.

Lemma login_POST_denied request now w :
  let checked := RateLimit.check now ("login:" +:+ clientIP_of request)
                   (RateLimit.policy_limit RateLimit.AUTH)
                   (RateLimit.policy_windowMs RateLimit.AUTH) (limiter w) in
  RateLimit.success checked.1 = false →
  (login_POST request now w).1 =
    Return (rate_limited_response "Too many login attempts" checked.1).
Proof.
  intros checked Hdenied. subst checked.
  unfold login_POST, route, login_try, rateLimiter_check.
  cbn. destruct (RateLimit.check _ _ _ _ _) as [r t]. cbn in *.
  rewrite Hdenied. reflexivity.
Qed.

Transparent RateLimit.check.

Lemma login_run_cons request now calls w :
  (login_run ((request, now) :: calls) w).1 =
    (login_POST request now w).1
    :: (login_run calls (login_POST request now w).2).1.
Proof.
  cbn [login_run]. destruct (login_POST request now w) as [r w1].
  cbn [fst snd]. destruct (login_run calls w1) as [rs w2]. reflexivity.
Qed.

(** While the window of the counter of an address is open, every
    login from the address counts, and from the sixth on it is
    refused. *)
Lemma login_run_within ip calls : ∀ w e,
  limiter w !! ("login:" +:+ ip) = Some e →
  Forall (λ c, clientIP_of c.1 = ip ∧ c.2 ≤ RateLimit.resetTime e) calls →
  ∀ (i : nat) answer,
    (login_run calls w).1 !! i = Some answer →
    5 ≤ RateLimit.count e + Z.of_nat i →
    answer = Return (rate_limited_response "Too many login attempts"
                       (RateLimit.mkResult false 5 0 (RateLimit.resetTime e))).
Proof.
  induction calls as [| [request now] calls IH]; intros w e He Hcalls i answer Hi Hcount;
    [done |].
  inversion Hcalls as [| c cs [Hip Hnow] Hrest]; subst c cs. cbn [fst snd] in *.
  rewrite login_run_cons in Hi.
  pose proof (RateLimitFacts.check_within now ("login:" +:+ ip)
                (RateLimit.policy_limit RateLimit.AUTH)
                (RateLimit.policy_windowMs RateLimit.AUTH) (limiter w) e
                ltac:(done) He Hnow) as Hcheck.
  change (RateLimit.policy_limit RateLimit.AUTH) with 5 in Hcheck.
  destruct i as [| i]; cbn [lookup list_lookup] in Hi.
  - injection Hi as <-.
    assert (RateLimit.count e + 1 ≤ 5 → False) as Hfull by lia.
    rewrite login_POST_denied; rewrite Hip;
      change (RateLimit.policy_limit RateLimit.AUTH) with 5;
      rewrite Hcheck; cbn [fst RateLimit.success].
    + rewrite (bool_decide_eq_false_2 _ Hfull).
      by replace (Z.max 0 (5 - (RateLimit.count e + 1))) with 0 by lia.
    + by apply bool_decide_eq_false_2.
  - refine (IH (login_POST request now w).2
              (RateLimit.mkEntry (RateLimit.count e + 1) (RateLimit.resetTime e))
              _ Hrest i answer Hi _).
    + rewrite login_POST_limiter, Hip.
      change (RateLimit.policy_limit RateLimit.AUTH) with 5.
      rewrite Hcheck. cbn [snd]. apply lookup_insert_eq.
    + cbn [RateLimit.count]. lia.
Qed.

(** From one address, at most five logins per window reach the
    credential check: of the logins that arrive before the window the
    first one opened has closed, the sixth and every later one is
    refused with status 429 and the reset time of that window, whatever
    the requests hold and whatever the store answered to the earlier
    ones. *)
Theorem login_attempts_capped :
  ∀ calls w ip request0 t0,
    limiter w !! ("login:" +:+ ip) = None →
    clientIP_of request0 = ip →
    Forall (λ c, clientIP_of c.1 = ip ∧
                 c.2 ≤ t0 + RateLimit.policy_windowMs RateLimit.AUTH) calls →
    ∀ (i : nat) answer,
      (login_run ((request0, t0) :: calls) w).1 !! i = Some answer →
      (5 ≤ i)%nat →
      answer = Return (rate_limited_response "Too many login attempts"
                         (RateLimit.mkResult false 5 0
                            (t0 + RateLimit.policy_windowMs RateLimit.AUTH))).
Proof.
  intros calls w ip request0 t0 Hfresh Hip Hcalls i answer Hi Hfive.
  rewrite login_run_cons in Hi.
  destruct i as [| i]; [lia |]. cbn [lookup list_lookup] in Hi.
  pose proof (RateLimitFacts.check_fresh t0 ("login:" +:+ ip)
                (RateLimit.policy_limit RateLimit.AUTH)
                (RateLimit.policy_windowMs RateLimit.AUTH) (limiter w)
                ltac:(done) Hfresh) as Hcheck.
  apply (login_run_within ip calls (login_POST request0 t0 w).2
           (RateLimit.mkEntry 1 (t0 + RateLimit.policy_windowMs RateLimit.AUTH))
           ltac:(rewrite login_POST_limiter, Hip, Hcheck; apply lookup_insert_eq)
           Hcalls i answer Hi).
  cbn [RateLimit.count]. lia.
Qed.

Opaque RateLimit.check.

(** *** The routes always answer *)




Transparent User.toJSON formatErrorResponse authenticateRequest RateLimit.check
            Validation.validate generateToken Validation.field.

End Routes.

Import Reference.

Lemma unauthenticated_profile_untouched_witness :
  let request := mkRequest (Some "203.0.113.7") (Some "Basic YWRhOnB3") None
                   (Some (JObj [("bio", JStr "Analyst")])) in
  (profile_GET request 6000 ada_world).1 = Return token_required_response ∧
  db (profile_GET request 6000 ada_world).2 = db ada_world ∧
  stages_added ada_world (profile_GET request 6000 ada_world).2 [AUTHENTICATE; FORMAT] ∧
  (profile_PUT request 6000 ada_world).1 = Return token_required_response ∧
  db (profile_PUT request 6000 ada_world).2 = db ada_world ∧
  stages_added ada_world (profile_PUT request 6000 ada_world).2 [AUTHENTICATE; FORMAT].
Proof.
  intros request.
  apply (unauthenticated_profile_untouched request 6000 ada_world). reflexivity.
Defined.

Lemma login_failures_indistinguishable_witness :
  let request := mkRequest (Some "203.0.113.7") None None
                   (Some (JObj [ ("email", JStr "ada@example.com");
                                 ("password", JStr "guess") ])) in
  let checked := RateLimit.check 6000 ("login:" +:+ clientIP_of request)
                   (RateLimit.policy_limit RateLimit.AUTH)
                   (RateLimit.policy_windowMs RateLimit.AUTH) (limiter ada_world) in
  login_POST request 6000 ada_world =
    (Return invalid_credentials_response,
     mkWorld checked.2 [ada] (console ada_world)
             (trace ada_world ++ [RATE_CHECK; PARSE_VALIDATE; EXECUTE; FORMAT])).
Proof.
  intros request.
  apply (login_failures_indistinguishable request 6000 ada_world
           (JObj [ ("email", JStr "ada@example.com"); ("password", JStr "guess") ])
           ∅
           (JObj [ ("email", JStr "ada@example.com"); ("password", JStr "guess") ])
           [ada] [ada]).
  - vm_compute. reflexivity.
  - reflexivity.
  - vm_compute. reflexivity.
  - reflexivity.
  - right. exists ada. split; vm_compute; reflexivity.
Defined.

Lemma login_success_requires_matching_password_witness :
  ∃ body errors data d1 d2 user,
    json login_request = Some body ∧
    Validation.validate Validation.loginSchema body = (errors, Some data) ∧
    connectToDatabase (db ada_world) = (Return (), d1) ∧
    User_findOne (Validation.field data "email") d1 = (Return (Some user), d2) ∧
    comparePassword user (Validation.field data "password") = Return true ∧
    login_response 6000 =
      mkResponse 200
        (BodySuccess "Login successful" (User.toJSON user)
           (Some (generateToken (payload_of user) 6000)))
        None (Some (generateToken (payload_of user) 6000)).
Proof.
  apply (login_success_requires_matching_password login_request 6000 ada_world
           (login_response 6000) "Login successful" (User.toJSON ada)
           (Some (ada_token 6000))).
  - vm_compute. reflexivity.
  - reflexivity.
Defined.

Lemma duplicate_registration_conflict_witness :
  let checked := RateLimit.check 6000 ("register:" +:+ clientIP_of register_request)
                   (RateLimit.policy_limit RateLimit.AUTH)
                   (RateLimit.policy_windowMs RateLimit.AUTH) (limiter ada_world) in
  register_POST register_request 6000 ada_world =
    (Return (mkResponse 409
               (BodyError (mkErrorResponse "User with this email already exists"
                             (Some "CONFLICT") None 409))
               None None),
     mkWorld checked.2 [ada] (console ada_world)
             (trace ada_world ++ [RATE_CHECK; PARSE_VALIDATE; EXECUTE; FORMAT])).
Proof.
  apply (duplicate_registration_conflict register_request 6000 ada_world
           (Validation.register_body "ada@example.com" "Passw0rdX" "Ada" "Lovelace")
           ∅
           (JObj [ ("email", JStr "ada@example.com"); ("password", JStr "Passw0rdX");
                   ("firstName", JStr "Ada"); ("lastName", JStr "Lovelace");
                   ("role", JStr "candidate") ])
           [ada] [ada] ada).
  - vm_compute. reflexivity.
  - reflexivity.
  - vm_compute. reflexivity.
  - reflexivity.
  - vm_compute. reflexivity.
Defined.

Lemma login_attempts_capped_witness :
  let guess (password : string) : Request :=
    mkRequest (Some "203.0.113.7") None None
      (Some (JObj [ ("email", JStr "ada@example.com"); ("password", JStr password) ])) in
  let calls := [ (guess "b", 1100); (guess "c", 1200); (login_request, 1300);
                 (guess "d", 1400); (login_request, 901000) ] in
  ∃ answer,
    (login_run ((guess "a", 1000) :: calls) ada_world).1 !! 5%nat = Some answer ∧
    answer = Return (rate_limited_response "Too many login attempts"
                       (RateLimit.mkResult false 5 0
                          (1000 + RateLimit.policy_windowMs RateLimit.AUTH))).
Proof.
  intros guess calls. eexists. split; [vm_compute; reflexivity |].
  apply (login_attempts_capped calls ada_world "203.0.113.7" (guess "a") 1000
           ltac:(reflexivity) ltac:(reflexivity)
           ltac:(repeat constructor; vm_compute; discriminate) 5%nat).
  - vm_compute. reflexivity.
  - lia.
Defined.



End RouteRunsFacts.
